(** * CSV table core: parser, type detector, filter, sort, paginator, exporter

    Shallow embedding of [lib.js] (and of the text built by [exportCSV] in
    [app.js]) together with the properties stated about them.

    Conventions.
    - A JavaScript string is the list of its UTF-16 code units ([str]).
    - A JavaScript number that the code only uses as an integer (indices,
      counts, page numbers) is a [Z]; a number that can be [NaN] or infinite
      (a parsed field, a comparator result, a ratio) is an IEEE-754 binary64
      value, [spec_float] with precision 53 and maximal exponent 1024 (the
      specification of the hardware doubles of [PrimFloat]).
    - [null]/[undefined] is [None].
    - Host functions whose result depends on Unicode tables or on the engine
      ([toLowerCase], [Date.parse], [localeCompare]) are the fields of the
      class [Host]. *)

From Stdlib Require Import ZArith NArith QArith List Lia Bool Permutation Sorted String Ascii.
From Stdlib Require Import Floats Uint63.
From stdpp Require Import gmap list.

Local Open Scope Z_scope.

(* ================================================================== *)
(** * Definitions *)
(* ================================================================== *)

(** ** Strings as sequences of UTF-16 code units *)

Definition char := N.
Definition str := list char.

Definition QUOTE : char := 34%N.
Definition COMMA : char := 44%N.
Definition SEMI  : char := 59%N.
Definition TAB   : char := 9%N.
Definition PIPE  : char := 124%N.
Definition CR    : char := 13%N.
Definition LF    : char := 10%N.
Definition BOM   : char := 65279%N.

(** An ASCII literal as a [str]. *)
Definition lit (s : string) : str :=
  List.map N_of_ascii (list_ascii_of_string s).

Module Js.

(** [WhiteSpace] and [LineTerminator] code points of ECMA-262, the ones
    [String.prototype.trim] removes. *)
Definition isWhiteSpace (c : char) : bool :=
  ((c =? 9) || (c =? 10) || (c =? 11) || (c =? 12) || (c =? 13) ||
   (c =? 32) || (c =? 160) || (c =? 5760) ||
   ((8192 <=? c) && (c <=? 8202)) ||
   (c =? 8232) || (c =? 8233) || (c =? 8239) || (c =? 8287) ||
   (c =? 12288) || (c =? 65279))%N.

Fixpoint trimStart (s : str) : str :=
  match s with
  | c :: s' => if isWhiteSpace c then trimStart s' else s
  | [] => []
  end.

Definition trimEnd (s : str) : str := rev (trimStart (rev s)).

(** [s.trim()] *)
Definition trim (s : str) : str := trimEnd (trimStart s).

Fixpoint startsWith (p s : str) : bool :=
  match p, s with
  | [], _ => true
  | a :: p', b :: s' => (a =? b)%N && startsWith p' s'
  | _ :: _, [] => false
  end.

(** [s.includes(p)] *)
Fixpoint includes (s p : str) : bool :=
  startsWith p s ||
  match s with
  | [] => false
  | _ :: s' => includes s' p
  end.

(** [s.split(d)] for a separator of one code unit. *)
Fixpoint split1 (d : char) (s : str) : list str :=
  match s with
  | [] => [[]]
  | c :: s' =>
      if (c =? d)%N then [] :: split1 d s'
      else match split1 d s' with
           | p :: ps => (c :: p) :: ps
           | [] => [[c]]
           end
  end.

(** [s.replace(/,/g, '')] *)
Definition removeCommas (s : str) : str :=
  List.filter (fun c => negb (c =? COMMA)%N) s.

(** [s.replace] of every double quote by two double quotes. *)
Fixpoint doubleQuotes (s : str) : str :=
  match s with
  | [] => []
  | c :: s' =>
      if (c =? QUOTE)%N then QUOTE :: QUOTE :: doubleQuotes s'
      else c :: doubleQuotes s'
  end.

(** [parts.join(sep)] *)
Fixpoint join (sep : str) (parts : list str) : str :=
  match parts with
  | [] => []
  | [p] => p
  | p :: ps => p ++ sep ++ join sep ps
  end.

(** [text.split(/\r?\n/)[0]]: the text up to the first LF or CR LF. *)
Fixpoint firstLine (t : str) : str :=
  match t with
  | [] => []
  | c :: t' =>
      if (c =? LF)%N then []
      else if (c =? CR)%N &&
              match t' with d :: _ => (d =? LF)%N | [] => false end
      then []
      else c :: firstLine t'
  end.

(** [Array.prototype.slice(start, end)] for integer arguments: a negative
    index counts from the end of the array, both are clamped to
    [0..length]. *)
Definition sliceIndex (len k : Z) : Z :=
  if k <? 0 then Z.max (len + k) 0 else Z.min k len.

Definition slice {A} (l : list A) (start stop : Z) : list A :=
  let len := Z.of_nat (length l) in
  let k := sliceIndex len start in
  let final := sliceIndex len stop in
  firstn (Z.to_nat (final - k)) (skipn (Z.to_nat k) l).

End Js.

(* ------------------------------------------------------------------ *)
(** ** CSV parser ([parseCSV], lib.js 6-67) *)

Definition delims : list char := [COMMA; SEMI; TAB; PIPE].

(** Number of occurrences of [d], as the code counts them:
    [firstLine.split(d).length - 1]. *)
Definition countDelim (line : str) (d : char) : Z :=
  Z.of_nat (length (Js.split1 d line)) - 1.

(** One turn of the loop over [delims]; the state is [(delim, maxCount)]. *)
Definition delimStep (line : str) (st : char * Z) (d : char) : char * Z :=
  let count := countDelim line d in
  if snd st <? count then (d, count) else st.

Definition detectDelim (text : str) : char :=
  fst (fold_left (delimStep (Js.firstLine text)) delims (COMMA, 0)).

(** The loop of lines 31-43: called just after the opening quote, returns
    the field read and the text left after the closing quote. *)
Fixpoint scanQuoted (t : str) (field : str) : str * str :=
  match t with
  | [] => (field, [])
  | c :: t' =>
      if (c =? QUOTE)%N then
        match t' with
        | c' :: t'' =>
            if (c' =? QUOTE)%N then scanQuoted t'' (field ++ [QUOTE])
            else (field, t')
        | [] => (field, t')
        end
      else scanQuoted t' (field ++ [c])
  end.

(** The loop of lines 51-53: stops at the delimiter, at a carriage return,
    at a line feed or at the end of the text. *)
Fixpoint scanUnquoted (delim : char) (t : str) (field : str) : str * str :=
  match t with
  | [] => (field, [])
  | c :: t' =>
      if (c =? delim)%N || (c =? CR)%N || (c =? LF)%N then (field, t)
      else scanUnquoted delim t' (field ++ [c])
  end.

(** After a carriage return: [if (i < n && text[i] === '\n') i++]. *)
Definition skipLF (t : str) : str :=
  match t with
  | c :: t' => if (c =? LF)%N then t' else t
  | [] => []
  end.

(** The inner [while (i < n)] of lines 26-60: reads the fields of one row.
    Returns the row and the text left, or [None] when [fuel] turns are not
    enough. *)
Fixpoint parseRow (fuel : nat) (delim : char) (t : str) (row : list str)
  : option (list str * str) :=
  match fuel with
  | O => None
  | S fuel' =>
      match t with
      | [] => Some (row, [])
      | c :: t' =>
          if (c =? QUOTE)%N then
            let '(field, t1) := scanQuoted t' [] in
            let row := row ++ [field] in
            match t1 with
            | d :: t2 =>
                if (d =? delim)%N then parseRow fuel' delim t2 row
                else if (d =? CR)%N then Some (row, skipLF t2)
                else if (d =? LF)%N then Some (row, t2)
                else parseRow fuel' delim t1 row
            | [] => Some (row, [])
            end
          else
            let '(field, t1) := scanUnquoted delim t [] in
            let row := row ++ [Js.trim field] in
            match t1 with
            | d :: t2 =>
                if (d =? delim)%N then parseRow fuel' delim t2 row
                else if (d =? CR)%N then Some (row, skipLF t2)
                else if (d =? LF)%N then Some (row, t2)
                else Some (row, t1)
            | [] => Some (row, [])
            end
      end
  end.

(** Line 61: a row is kept unless it is empty or one empty field. *)
Definition keepRow (row : list str) : bool :=
  match row with
  | [] => false
  | [[]] => false
  | _ => true
  end.

(** The outer [while (i < n)] of lines 24-64. *)
Fixpoint parseRows (fuel : nat) (delim : char) (t : str) (rows : list (list str))
  : option (list (list str)) :=
  match fuel with
  | O => None
  | S fuel' =>
      match t with
      | [] => Some rows
      | _ :: _ =>
          match parseRow (S (length t)) delim t [] with
          | None => None
          | Some (row, t1) =>
              parseRows fuel' delim t1 (if keepRow row then rows ++ [row] else rows)
          end
      end
  end.

Record ParseResult := { rows : list (list str); delim : char }.

Definition stripBOM (text : str) : str :=
  match text with
  | c :: t => if (c =? BOM)%N then t else text
  | [] => []
  end.

Definition parseCSV (text : str) : option ParseResult :=
  let text := stripBOM text in
  let delim := detectDelim text in
  match parseRows (S (length text)) delim text [] with
  | Some rows => Some {| rows := rows; delim := delim |}
  | None => None
  end.

(* ------------------------------------------------------------------ *)
(** ** Table builder ([buildData], lib.js 72-77) *)

Fixpoint uintDigits (u : Decimal.uint) : str :=
  match u with
  | Decimal.Nil => []
  | Decimal.D0 u => 48%N :: uintDigits u
  | Decimal.D1 u => 49%N :: uintDigits u
  | Decimal.D2 u => 50%N :: uintDigits u
  | Decimal.D3 u => 51%N :: uintDigits u
  | Decimal.D4 u => 52%N :: uintDigits u
  | Decimal.D5 u => 53%N :: uintDigits u
  | Decimal.D6 u => 54%N :: uintDigits u
  | Decimal.D7 u => 55%N :: uintDigits u
  | Decimal.D8 u => 56%N :: uintDigits u
  | Decimal.D9 u => 57%N :: uintDigits u
  end.

(** A natural number in a template literal. *)
Definition decimal (n : nat) : str := uintDigits (Nat.to_uint n).

(** [h || `Column ${i + 1}`] *)
Definition headerName (i : nat) (h : str) : str :=
  match h with
  | [] => lit "Column " ++ decimal (i + 1)
  | _ :: _ => h
  end.

Record Table := { headers : list str; data : list (list str) }.

Definition buildData (rows : list (list str)) : Table :=
  match rows with
  | [] => {| headers := []; data := [] |}
  | first :: rest => {| headers := imap headerName first; data := rest |}
  end.

(* ------------------------------------------------------------------ *)
(** ** Rows with nullable cells

    The filter, the sort, the type detector and the exporter read a cell as
    [row[c] == null ? '' : row[c]]: the cell can be a string, [null] or
    missing. *)

Definition cell := option str.
Definition Row := list cell.

(** [cell == null ? '' : cell] *)
Definition cellStr (x : cell) : str :=
  match x with
  | Some s => s
  | None => []
  end.

(** [row[c]]: [None] when the index is out of range. *)
Definition at_ (row : Row) (c : nat) : cell := mjoin (row !! c).

(** The rows the parser produces, as rows of cells. *)
Definition asRows (rows : list (list str)) : list Row :=
  List.map (List.map Some) rows.

(* ------------------------------------------------------------------ *)
(** ** Exporter ([escapeCSVField], lib.js 195-201; [exportCSV], app.js 356-374) *)

Definition needsQuotes (s : str) : bool :=
  Js.includes s [COMMA] || Js.includes s [QUOTE] ||
  Js.includes s [LF] || Js.includes s [CR].

Definition escapeCSVField (val : cell) : str :=
  let s := cellStr val in
  if needsQuotes s then [QUOTE] ++ Js.doubleQuotes s ++ [QUOTE] else s.

(** The lines [exportCSV] builds: the header line, then one line per row
    with one field per header. *)
Definition exportLines (headers : list str) (filtered : list Row) : list str :=
  Js.join [COMMA] (List.map (fun h => escapeCSVField (Some h)) headers) ::
  List.map
    (fun row =>
       Js.join [COMMA]
         (List.map (fun c => escapeCSVField (at_ row c)) (seq 0 (length headers))))
    filtered.

(** The text [exportCSV] puts in the blob: [BOM + lines.join('\r\n')]. *)
Definition exportText (headers : list str) (filtered : list Row) : str :=
  BOM :: Js.join [CR; LF] (exportLines headers filtered).

(* ------------------------------------------------------------------ *)
(** ** Paginator ([buildPageList], [getPageSlice], [calcTotalPages]) *)

Inductive PageItem :=
| Page (p : Z)
| Ellipsis.

Definition isEllipsis (x : PageItem) : bool :=
  match x with
  | Ellipsis => true
  | Page _ => false
  end.

(** [addEllipsis]: pushes the marker unless the last entry is one. *)
Definition addEllipsis (result : list PageItem) : list PageItem :=
  match last result with
  | Some Ellipsis => result
  | _ => result ++ [Ellipsis]
  end.

(** [for (let p = lo; p <= hi; p++) result.push(p)] *)
Definition pushPages (lo hi : Z) (result : list PageItem) : list PageItem :=
  fold_left (fun r i => r ++ [Page (lo + Z.of_nat i)])
            (seq 0 (Z.to_nat (hi - lo + 1))) result.

Definition buildPageList (cur total : Z) : list PageItem :=
  if total <=? 7 then
    List.map (fun i => Page (Z.of_nat i + 1)) (seq 0 (Z.to_nat total))
  else
    let result := [] in
    let result := result ++ [Page 1] in
    let result := if 3 <? cur then addEllipsis result else result in
    let result := pushPages (Z.max 2 (cur - 1)) (Z.min (total - 1) (cur + 1)) result in
    let result := if cur <? total - 2 then addEllipsis result else result in
    result ++ [Page total].

Definition getPageSlice {A} (filtered : list A) (page pageSize : Z) : list A :=
  if pageSize =? 0 then filtered
  else
    let start := (page - 1) * pageSize in
    Js.slice filtered start (start + pageSize).

(** [Math.ceil(a / b)] on integers.  The quotient of two integers below
    2^53 is rounded to a double without reaching an integer it does not
    equal, so the ceiling of the double is the ceiling of the quotient. *)
Definition ceilDiv (a b : Z) : Z := - ((- a) / b).

Definition calcTotalPages (filteredCount pageSize : Z) : Z :=
  if pageSize =? 0 then 1
  else Z.max 1 (ceilDiv filteredCount pageSize).

(* ------------------------------------------------------------------ *)
(** ** JavaScript numbers: binary64 values and the numeric string grammar *)

Module JsNum.

Definition num := spec_float.

Definition NaN : num := S754_nan.
Definition negInfinity : num := S754_infinity true.
Definition posInfinity : num := S754_infinity false.
Definition zero : num := S754_zero false.

Definition sub : num -> num -> num := SFsub 53 1024.
Definition div : num -> num -> num := SFdiv 53 1024.
Definition neg : num -> num := SFopp.

(** [isNaN(x)] *)
Definition isNaN (x : num) : bool :=
  match x with
  | S754_nan => true
  | _ => false
  end.

(** [a >= b] *)
Definition geb (a b : num) : bool := SFleb b a.
(** [a > b] *)
Definition gtb (a b : num) : bool := SFltb b a.
(** [a < b] *)
Definition ltb (a b : num) : bool := SFltb a b.

(** An integer as a number. *)
Definition ofZ (z : Z) : num := binary_normalize 53 1024 z 0 false.

(** The double nearest to [m * 10^e] with the sign [s], ties to even
    (the rounding of a numeric literal). *)
Definition ofDecimal (s : bool) (m : Z) (e : Z) : num :=
  if m =? 0 then S754_zero s
  else if 0 <=? e then
    binary_normalize 53 1024 (cond_Zopp s (m * 10 ^ e)) 0 s
  else
    let '(mz, ez, lz) := SFdiv_core_binary 53 1024 m 0 (10 ^ (- e)) 0 in
    binary_round_aux 53 1024 s mz ez lz.

Definition isDigit (c : char) : bool := ((48 <=? c) && (c <=? 57))%N.

(** Reads decimal digits: their value after [acc], how many were read,
    and the text left. *)
Fixpoint digits (s : str) (acc : Z) (count : Z) : Z * Z * str :=
  match s with
  | c :: s' =>
      if isDigit c then digits s' (10 * acc + (Z.of_N c - 48)) (count + 1)
      else (acc, count, s)
  | [] => (acc, count, [])
  end.

(** [ExponentPart] if the text starts with one: the exponent and the text
    left; otherwise exponent 0 and the text unchanged. *)
Definition exponentPart (s : str) : Z * str :=
  match s with
  | c :: s1 =>
      if ((c =? 101) || (c =? 69))%N then
        let '(neg, s2) :=
          match s1 with
          | d :: s2 =>
              if (d =? 45)%N then (true, s2)
              else if (d =? 43)%N then (false, s2)
              else (false, s1)
          | [] => (false, s1)
          end in
        let '(v, n, rest) := digits s2 0 0 in
        if n =? 0 then (0, s) else (if neg then - v else v, rest)
      else (0, s)
  | [] => (0, s)
  end.

(** The longest prefix that is a [StrUnsignedDecimalLiteral], with its
    value under the sign [sg], and the text left. *)
Definition unsignedPrefix (sg : bool) (s : str) : option (num * str) :=
  if Js.startsWith (lit "Infinity") s then
    Some (S754_infinity sg, skipn 8 s)
  else
    let '(m1, n1, r1) := digits s 0 0 in
    match r1 with
    | c :: r1' =>
        if (c =? 46)%N then
          let '(m2, n2, r2) := digits r1' m1 0 in
          if (n1 =? 0) && (n2 =? 0) then None
          else
            let '(e, rest) := exponentPart r2 in
            Some (ofDecimal sg m2 (e - n2), rest)
        else if n1 =? 0 then None
        else
          let '(e, rest) := exponentPart r1 in
          Some (ofDecimal sg m1 e, rest)
    | [] => if n1 =? 0 then None else Some (ofDecimal sg m1 0, [])
    end.

(** The longest prefix that is a [StrDecimalLiteral]. *)
Definition decimalPrefix (s : str) : option (num * str) :=
  match s with
  | c :: s' =>
      if (c =? 45)%N then unsignedPrefix true s'
      else if (c =? 43)%N then unsignedPrefix false s'
      else unsignedPrefix false s
  | [] => None
  end.

(** [parseFloat(s)] *)
Definition parseFloat (s : str) : num :=
  match decimalPrefix (Js.trimStart s) with
  | Some (v, _) => v
  | None => NaN
  end.

(** The value of a digit in a base up to 16, if it is one. *)
Definition digitValue (base : Z) (c : char) : option Z :=
  let v :=
    if isDigit c then Z.of_N c - 48
    else if ((97 <=? c) && (c <=? 102))%N then Z.of_N c - 87
    else if ((65 <=? c) && (c <=? 70))%N then Z.of_N c - 55
    else 16 in
  if v <? base then Some v else None.

Fixpoint baseDigits (base : Z) (s : str) (acc : Z) : option Z :=
  match s with
  | [] => Some acc
  | c :: s' =>
      match digitValue base c with
      | Some v => baseDigits base s' (base * acc + v)
      | None => None
      end
  end.

(** [NonDecimalIntegerLiteral]: 0x, 0o, 0b and their upper-case forms. *)
Definition nonDecimal (s : str) : option num :=
  match s with
  | z :: p :: (_ :: _) as ds =>
      if (z =? 48)%N then
        let base :=
          if ((p =? 120) || (p =? 88))%N then 16
          else if ((p =? 111) || (p =? 79))%N then 8
          else if ((p =? 98) || (p =? 66))%N then 2
          else 0 in
        if base =? 0 then None
        else match baseDigits base ds 0 with
             | Some v => Some (ofZ v)
             | None => Some NaN
             end
      else None
  | _ => None
  end.

(** [Number(s)] for a string: white space is trimmed, the empty string is
    0, and the whole of what is left has to be a numeric literal. *)
Definition Number (s : str) : num :=
  match Js.trim s with
  | [] => zero
  | t =>
      match nonDecimal t with
      | Some v => v
      | None =>
          match decimalPrefix t with
          | Some (v, []) => v
          | _ => NaN
          end
      end
  end.

End JsNum.

(* ------------------------------------------------------------------ *)
(** ** Host functions *)

(** What the engine provides and the code calls: [s.toLowerCase()],
    [Date.parse(s)] and [a.localeCompare(b, undefined, { sensitivity:
    'base', numeric: true })]. *)
Class Host := {
  toLowerCase : str -> str;
  Date_parse : str -> JsNum.num;
  localeCompare : str -> str -> JsNum.num
}.

(* ------------------------------------------------------------------ *)
(** ** Type detector ([detectColTypes], lib.js 83-106) *)

Inductive ColType := TNumber | TDate | TString.

(** The counters [numOk], [dateOk], [total] of one column. *)
Record Counts := { numOk : Z; dateOk : Z; total : Z }.

Section Detect.
Context `{Host}.

(** The body of [for (const row of sample)] for column [c]. *)
Definition countRow (c : nat) (k : Counts) (row : Row) : Counts :=
  let val := Js.trim (cellStr (at_ row c)) in
  match val with
  | [] => k
  | _ :: _ =>
      let k := {| numOk := numOk k; dateOk := dateOk k; total := total k + 1 |} in
      if negb (JsNum.isNaN (JsNum.Number (Js.removeCommas val))) then
        {| numOk := numOk k + 1; dateOk := dateOk k; total := total k |}
      else if negb (JsNum.isNaN (Date_parse val)) then
        {| numOk := numOk k; dateOk := dateOk k + 1; total := total k |}
      else k
  end.

Definition countColumn (sample : list Row) (c : nat) : Counts :=
  fold_left (countRow c) sample {| numOk := 0; dateOk := 0; total := 0 |}.

(** The literal [0.8]. *)
Definition threshold : JsNum.num := JsNum.ofDecimal false 8 (-1).

Definition typeOfCounts (k : Counts) : ColType :=
  if total k =? 0 then TString
  else if JsNum.geb (JsNum.div (JsNum.ofZ (numOk k)) (JsNum.ofZ (total k))) threshold
  then TNumber
  else if JsNum.geb (JsNum.div (JsNum.ofZ (dateOk k)) (JsNum.ofZ (total k))) threshold
  then TDate
  else TString.

Definition detectColTypes (headers : list str) (data : list Row) : gmap Z ColType :=
  let sample := Js.slice data 0 500 in
  fold_left
    (fun types c => <[Z.of_nat c := typeOfCounts (countColumn sample c)]> types)
    (seq 0 (length headers)) ∅.

End Detect.

(* ------------------------------------------------------------------ *)
(** ** Filter engine ([filterRows], lib.js 111-125) *)

Section Filter.
Context `{Host}.

Definition nonEmpty (s : str) : bool :=
  match s with
  | [] => false
  | _ :: _ => true
  end.

(** The callback of [data.filter]. *)
Definition keepsRow (gLower : str) (colLowers : list str) (colCount : nat)
           (row : Row) : bool :=
  if nonEmpty gLower &&
     negb (existsb (fun x => Js.includes (toLowerCase (cellStr x)) gLower) row)
  then false
  else
    forallb
      (fun c =>
         match colLowers !! c with
         | None | Some [] => true
         | Some f => Js.includes (toLowerCase (cellStr (at_ row c))) f
         end)
      (seq 0 colCount).

Definition filterRows (data : list Row) (headers : option (list str))
           (globalSearch : cell) (colFilters : option (list cell)) : list Row :=
  let gLower := toLowerCase (cellStr globalSearch) in
  let colLowers :=
    List.map (fun f => toLowerCase (cellStr f)) (default [] colFilters) in
  let colCount := match headers with Some h => length h | None => O end in
  List.filter (keepsRow gLower colLowers colCount) data.

End Filter.

(* ------------------------------------------------------------------ *)
(** ** Sort engine ([sortRows], lib.js 130-152) *)

Inductive SortDir := Asc | Desc | NoSort.

Module JsArray.

Section Sort.
Context {A : Type} (comparefn : A -> A -> JsNum.num).

(** [SortCompare] of ECMA-262 orders [x] after [y] when the comparator
    gives a number above zero; [NaN] counts as [+0]. *)
Definition after (x y : A) : bool := JsNum.gtb (comparefn x y) JsNum.zero.

Fixpoint insert (x : A) (l : list A) : list A :=
  match l with
  | [] => [x]
  | y :: l' => if after x y then y :: insert x l' else x :: l
  end.

(** [Array.prototype.sort(comparefn)].  ECMA-262 fixes the result for a
    consistent comparator (sorted, and stable) and leaves the order to the
    implementation for any other.  The model is the stable insertion sort:
    an element goes before the first one it is not ordered after. *)
Fixpoint sort (l : list A) : list A :=
  match l with
  | [] => []
  | x :: l' => insert x (sort l')
  end.
End Sort.

End JsArray.

Section Sort.
Context `{Host}.

(** [isNaN(x) ? -Infinity : x] *)
Definition orNegInfinity (x : JsNum.num) : JsNum.num :=
  if JsNum.isNaN x then JsNum.negInfinity else x.

(** [(a[sortCol] == null ? '' : a[sortCol]).trim()] *)
Definition sortKey (sortCol : Z) (a : Row) : str :=
  Js.trim (cellStr (at_ a (Z.to_nat sortCol))).

(** The value [cmp] of the comparator. *)
Definition cmpOf (type : ColType) (av bv : str) : JsNum.num :=
  match type with
  | TNumber =>
      let an := JsNum.parseFloat (Js.removeCommas av) in
      let bn := JsNum.parseFloat (Js.removeCommas bv) in
      JsNum.sub (orNegInfinity an) (orNegInfinity bn)
  | TDate =>
      let ad := Date_parse av in
      let bd := Date_parse bv in
      JsNum.sub (orNegInfinity ad) (orNegInfinity bd)
  | TString => localeCompare av bv
  end.

(** The comparator given to [sort]. *)
Definition compareRows (sortCol : Z) (sortDir : SortDir) (type : ColType)
           (a b : Row) : JsNum.num :=
  let cmp := cmpOf type (sortKey sortCol a) (sortKey sortCol b) in
  match sortDir with
  | Asc => cmp
  | _ => JsNum.neg cmp
  end.

(** [(colTypes && colTypes[sortCol]) || 'string'] *)
Definition typeOfCol (colTypes : option (gmap Z ColType)) (sortCol : Z) : ColType :=
  match colTypes with
  | Some m => default TString (m !! sortCol)
  | None => TString
  end.

Definition sortRows (rows : list Row) (sortCol : Z) (sortDir : SortDir)
           (colTypes : option (gmap Z ColType)) : list Row :=
  if (sortCol <? 0) || (match sortDir with NoSort => true | _ => false end)
  then rows
  else JsArray.sort (compareRows sortCol sortDir (typeOfCol colTypes sortCol)) rows.

End Sort.

(** A host for examples: ASCII lower-casing, no string is a date, and
    strings compared by their code units. *)
Definition asciiLower (c : char) : char :=
  if ((65 <=? c) && (c <=? 90))%N then (c + 32)%N else c.

Fixpoint compareUnits (a b : str) : JsNum.num :=
  match a, b with
  | [], [] => JsNum.zero
  | [], _ :: _ => JsNum.ofZ (-1)
  | _ :: _, [] => JsNum.ofZ 1
  | x :: a', y :: b' =>
      if (x <? y)%N then JsNum.ofZ (-1)
      else if (y <? x)%N then JsNum.ofZ 1
      else compareUnits a' b'
  end.

Definition asciiHost : Host := {|
  toLowerCase := List.map asciiLower;
  Date_parse := fun _ => JsNum.NaN;
  localeCompare := compareUnits
|}.

(* ------------------------------------------------------------------ *)
(** ** Vocabulary of the properties *)

(** Two ellipsis markers next to each other. *)
Fixpoint adjacentEllipsis (l : list PageItem) : bool :=
  match l with
  | x :: (y :: _) as l' => (isEllipsis x && isEllipsis y) || adjacentEllipsis l'
  | _ => false
  end.

(** The pages [1..n]. *)
Definition pagesUpTo (n : Z) : list PageItem :=
  List.map (fun i => Page (Z.of_nat i)) (seq 1 (Z.to_nat n)).

(** The rows of the pages [1..n] one after the other. *)
Definition allPages {A} (rows : list A) (pageSize : Z) (n : Z) : list A :=
  concat (List.map (fun p => getPageSlice rows (Z.of_nat p) pageSize)
                   (seq 1 (Z.to_nat n))).

(** The half-open range [lo, hi) of a list, clipped to the list. *)
Definition range {A} (l : list A) (lo hi : Z) : list A :=
  firstn (Z.to_nat (hi - lo)) (skipn (Z.to_nat lo) l).

(** How many times [d] occurs in [line]. *)
Definition occurrences (d : char) (line : str) : Z :=
  Z.of_nat (length (List.filter (fun c => (c =? d)%N) line)).

Definition Row_eq_dec (x y : list (option (list N))) : {x = y} + {x <> y} :=
  decide (x = y).

(** How many times [row] occurs in [rows]. *)
Definition copies (rows : list Row) (row : Row) : nat :=
  count_occ Row_eq_dec rows row.

Section FilterVocabulary.
Context `{Host}.

(** [s] contains [p] as a substring when case is ignored. *)
Definition containsCI (s p : str) : Prop :=
  Js.includes (toLowerCase s) (toLowerCase p) = true.

(** [headers ? headers.length : 0] *)
Definition columnCount (headers : option (list str)) : nat :=
  match headers with
  | Some h => length h
  | None => O
  end.

(** A row passes the global search: the search is empty or a field of the
    row contains it. *)
Definition passesSearch (globalSearch : cell) (row : Row) : Prop :=
  cellStr globalSearch = [] \/
  exists x, In x row /\ containsCI (cellStr x) (cellStr globalSearch).

(** A row passes the column filters at the indices below [bound]. *)
Definition passesColumns (bound : nat -> Prop) (colFilters : option (list cell))
           (row : Row) : Prop :=
  forall (c : nat) (f : cell),
    bound c -> default [] colFilters !! c = Some f -> cellStr f <> [] ->
    containsCI (cellStr (at_ row c)) (cellStr f).

(** The rows C3 says are kept: every index of [colFilters] counts. *)
Definition keptAsStated (globalSearch : cell) (colFilters : option (list cell))
           (row : Row) : Prop :=
  passesSearch globalSearch row /\ passesColumns (fun _ => True) colFilters row.

(** The rows the code keeps: only the indices below [headers.length]. *)
Definition kept (headers : option (list str)) (globalSearch : cell)
           (colFilters : option (list cell)) (row : Row) : Prop :=
  passesSearch globalSearch row /\
  passesColumns (fun c => (c < columnCount headers)%nat) colFilters row.

End FilterVocabulary.

Section DetectVocabulary.
Context `{Host}.

(** The value parses as a number once its commas are removed. *)
Definition isNumeric (v : str) : bool :=
  negb (JsNum.isNaN (JsNum.Number (Js.removeCommas v))).

(** The value parses as a date. *)
Definition isDate (v : str) : bool := negb (JsNum.isNaN (Date_parse v)).

(** The non-empty trimmed values of column [c] in the first 500 rows. *)
Definition sampleValues (data : list Row) (c : nat) : list str :=
  List.filter nonEmpty
    (List.map (fun row => Js.trim (cellStr (at_ row c))) (firstn 500 data)).

(** The fraction [n / t] is at least 0.8, as a comparison of rationals. *)
Definition atLeast80 (n t : nat) : bool :=
  Qle_bool (Qmake 8 10) (Qmake (Z.of_nat n) (Pos.of_nat t)).

(** The type the rule of C5 gives to the values of a column. *)
Definition typeOfValues (values : list str) : ColType :=
  let total := length values in
  let numOk := length (List.filter isNumeric values) in
  let dateOk := length (List.filter (fun v => negb (isNumeric v) && isDate v) values) in
  if (total =? 0)%nat then TString
  else if atLeast80 numOk total then TNumber
  else if atLeast80 dateOk total then TDate
  else TString.

(** The literal [0.8] as a hardware double. *)
Definition threshold64 : PrimFloat.float := 0x1.999999999999ap-1%float.

(** The comparison [n / t >= 0.8] on hardware doubles agrees with the
    comparison of the integers [4 * t] and [5 * n]. *)
Definition ratioOk (n t : Z) : bool :=
  Bool.eqb
    (PrimFloat.leb threshold64
       (PrimFloat.div (PrimFloat.of_uint63 (Uint63.of_Z n))
                      (PrimFloat.of_uint63 (Uint63.of_Z t))))
    (4 * t <=? 5 * n).

(** [ratioOk] for the [count] numerators from [n] downwards. *)
Fixpoint ratiosDown (count : nat) (n t : Z) : bool :=
  match count with
  | O => true
  | S k => ratioOk n t && ratiosDown k (n - 1) t
  end.

(** [ratioOk] for the [count] denominators from [t] downwards, each with
    the numerators from 0 to it. *)
Fixpoint ratiosAll (count : nat) (t : Z) : bool :=
  match count with
  | O => true
  | S k => ratiosDown (S (Z.to_nat t)) t t && ratiosAll k (t - 1)
  end.

End DetectVocabulary.

Section SortVocabulary.
Context `{Host}.

(** What the comparator parses in a number or a date column. *)
Definition parsed (type : ColType) (v : str) : JsNum.num :=
  match type with
  | TNumber => JsNum.parseFloat (Js.removeCommas v)
  | TDate => Date_parse v
  | TString => JsNum.NaN
  end.

(** The field of the row in the sort column does not parse. *)
Definition unparseable (type : ColType) (sortCol : Z) (row : Row) : Prop :=
  JsNum.isNaN (parsed type (sortKey sortCol row)) = true.

(** The comparator reads the field as minus infinity: it does not parse,
    or it parses to minus infinity. *)
Definition readsNegInfinity (type : ColType) (sortCol : Z) (row : Row) : bool :=
  match parsed type (sortKey sortCol row) with
  | S754_nan | S754_infinity true => true
  | _ => false
  end.

(** The field parses to a number above minus infinity. *)
Definition parsesAbove (type : ColType) (sortCol : Z) (row : Row) : Prop :=
  readsNegInfinity type sortCol row = false.

(** The field parses, to whatever number. *)
Definition parseable (type : ColType) (sortCol : Z) (row : Row) : Prop :=
  JsNum.isNaN (parsed type (sortKey sortCol row)) = false.

End SortVocabulary.

(** A field the export and the parser leave as it is: the export puts it
    in quotes, or trimming does not change it. *)
Definition keepsSpaces (f : str) : Prop :=
  needsQuotes f = true \/ Js.trim f = f.

(** The last field of the last row. *)
Definition lastField (body : list (list str)) : option str :=
  match last body with
  | Some row => last row
  | None => None
  end.

(** One line of the export: the escaped fields joined by commas. *)
Definition lineOf (fields : list str) : str :=
  Js.join [COMMA] (List.map (fun f => escapeCSVField (Some f)) fields).

(** A row the parser gives back from its line. *)
Definition plainRow (row : list str) : Prop :=
  row <> [] /\ row <> [[]] /\ Forall keepsSpaces row.

(** The text after a field: a comma, a line break or nothing. *)
Definition stopsAt (delim : char) (t : str) : Prop :=
  match t with
  | [] => True
  | d :: _ => ((d =? delim) || (d =? CR) || (d =? LF))%N = true
  end.

(** What the parser does after a field, when a comma, a line break or the
    end of the text follows it. *)
Definition afterField (fuel : nat) (rest : str) (row : list str)
  : option (list str * str) :=
  match rest with
  | [] => Some (row, [])
  | d :: t2 =>
      if (d =? COMMA)%N then parseRow fuel COMMA t2 row
      else if (d =? CR)%N then Some (row, skipLF t2)
      else Some (row, t2)
  end.

(** The lines of a table joined by CR LF. *)
Definition textOf (table : list (list str)) : str :=
  Js.join [CR; LF] (List.map lineOf table).

(** The non-empty trimmed values of column [c] in a sample. *)
Definition columnValues (sample : list Row) (c : nat) : list str :=
  List.filter nonEmpty (List.map (fun row => Js.trim (cellStr (at_ row c))) sample).

(** Rows read as minus infinity first, the others after them. *)
Definition lowFirst `{Host} (type : ColType) (sortCol : Z) (l : list Row) : Prop :=
  exists l1 l2, l = l1 ++ l2 /\
    Forall (fun r => readsNegInfinity type sortCol r = true) l1 /\
    Forall (fun r => readsNegInfinity type sortCol r = false) l2.

(** The table of the export test of the repository. *)
Definition exampleHeaders : list str := [lit "name"; lit "note"].

Definition exampleBody : list (list str) :=
  [[lit "Alice"; lit "loves " ++ [QUOTE] ++ lit "quotes" ++ [QUOTE] ++ lit ", and commas"];
   [lit "Bob"; lit "line1" ++ [LF] ++ lit "line2"]].

(* ------------------------------------------------------------------ *)
(** ** The application state and its handlers (app.js)

    The state object, the handlers that change it and the values the render
    functions compute from it.  Of the document, the controls that carry a
    handler are kept: a handler is the change it makes to the state and to
    these controls, a render function is what it shows. *)

(** [String(n)] for an integer. *)
Definition intToString (z : Z) : str :=
  match Z.to_int z with
  | Decimal.Pos u => uintDigits u
  | Decimal.Neg u => 45%N :: uintDigits u
  end.

(** [arr[c] = v]: past the end the array grows, the cells in between are
    holes, which read as [undefined]. *)
Definition arraySet {A} (arr : list (option A)) (c : nat) (v : A) : list (option A) :=
  if (c <? length arr)%nat then <[c := Some v]> arr
  else arr ++ replicate (c - length arr) None ++ [Some v].

Module App.

Record State := {
  headers : list str;
  data : list Row;
  colTypes : gmap Z ColType;
  filtered : list Row;
  sortCol : Z;
  sortDir : SortDir;
  globalSearch : str;
  colFilters : list cell;
  page : Z;
  pageSize : Z;
  fileName : str
}.

(** The state the script starts with (app.js 9-21). *)
Definition initial : State := {|
  headers := [];
  data := [];
  colTypes := ∅;
  filtered := [];
  sortCol := -1;
  sortDir := NoSort;
  globalSearch := [];
  colFilters := [];
  page := 1;
  pageSize := 50;
  fileName := []
|}.

Section Handlers.
Context `{Host}.

(** [applyFiltersAndSort] (app.js 26-31) *)
Definition applyFiltersAndSort (st : State) : State :=
  let result :=
    filterRows (data st) (Some (headers st)) (Some (globalSearch st))
               (Some (colFilters st)) in
  let result := sortRows result (sortCol st) (sortDir st) (Some (colTypes st)) in
  {| headers := headers st;
     data := data st;
     colTypes := colTypes st;
     filtered := result;
     sortCol := sortCol st;
     sortDir := sortDir st;
     globalSearch := globalSearch st;
     colFilters := colFilters st;
     page := 1;
     pageSize := pageSize st;
     fileName := fileName st |}.

(** [getPageRows] (app.js 36-38) *)
Definition getPageRows (st : State) : list Row :=
  getPageSlice (filtered st) (page st) (pageSize st).

(** [totalPages] (app.js 40-42) *)
Definition totalPages (st : State) : Z :=
  calcTotalPages (Z.of_nat (length (filtered st))) (pageSize st).

(** The assignments of [activate] for the header of column [c]
    (app.js 88-97). *)
Definition nextSort (c : nat) (st : State) : Z * SortDir :=
  if negb (sortCol st =? Z.of_nat c) then (Z.of_nat c, Asc)
  else match sortDir st with
       | Asc => (Z.of_nat c, Desc)
       | _ => (-1, NoSort)
       end.

(** [activate], the click on the header of column [c] (app.js 88-98). *)
Definition activate (c : nat) (st : State) : State :=
  applyFiltersAndSort
    {| headers := headers st;
       data := data st;
       colTypes := colTypes st;
       filtered := filtered st;
       sortCol := fst (nextSort c st);
       sortDir := snd (nextSort c st);
       globalSearch := globalSearch st;
       colFilters := colFilters st;
       page := page st;
       pageSize := pageSize st;
       fileName := fileName st |}.

(** [input.oninput] of the filter of column [c] (app.js 141-147). *)
Definition onFilterInput (c : nat) (value : str) (st : State) : State :=
  applyFiltersAndSort
    {| headers := headers st;
       data := data st;
       colTypes := colTypes st;
       filtered := filtered st;
       sortCol := sortCol st;
       sortDir := sortDir st;
       globalSearch := globalSearch st;
       colFilters := arraySet (colFilters st) c value;
       page := page st;
       pageSize := pageSize st;
       fileName := fileName st |}.

(** The [input] listener of the global search (app.js 432-439); the
    listener of the clear button (app.js 441-450) is the same with the
    empty string. *)
Definition onSearchInput (value : str) (st : State) : State :=
  applyFiltersAndSort
    {| headers := headers st;
       data := data st;
       colTypes := colTypes st;
       filtered := filtered st;
       sortCol := sortCol st;
       sortDir := sortDir st;
       globalSearch := value;
       colFilters := colFilters st;
       page := page st;
       pageSize := pageSize st;
       fileName := fileName st |}.

Definition onClearSearch (st : State) : State := onSearchInput [] st.

(** The [change] listener of the page size (app.js 453-459). *)
Definition onPageSize (n : Z) (st : State) : State :=
  {| headers := headers st;
     data := data st;
     colTypes := colTypes st;
     filtered := filtered st;
     sortCol := sortCol st;
     sortDir := sortDir st;
     globalSearch := globalSearch st;
     colFilters := colFilters st;
     page := 1;
     pageSize := n;
     fileName := fileName st |}.

(** [btn.onclick] of a page button (app.js 203-208). *)
Definition onPageClick (targetPage : Z) (st : State) : State :=
  {| headers := headers st;
     data := data st;
     colTypes := colTypes st;
     filtered := filtered st;
     sortCol := sortCol st;
     sortDir := sortDir st;
     globalSearch := globalSearch st;
     colFilters := colFilters st;
     page := targetPage;
     pageSize := pageSize st;
     fileName := fileName st |}.

(** [resetToUpload] (app.js 379-388) *)
Definition resetToUpload (st : State) : State :=
  {| headers := [];
     data := [];
     colTypes := colTypes st;
     filtered := [];
     sortCol := sortCol st;
     sortDir := sortDir st;
     globalSearch := globalSearch st;
     colFilters := colFilters st;
     page := page st;
     pageSize := pageSize st;
     fileName := fileName st |}.

(** What [reader.onload] does with the text of the file (app.js 315-347):
    the upload error, or the new state. *)
Inductive Outcome :=
| Rejected
| Loaded (st : State).

Definition onload (text : str) (st : State) : option Outcome :=
  match parseCSV text with
  | None => None
  | Some r =>
      match buildData (rows r) with
      | Build_Table hs body =>
          if (length hs =? 0)%nat then Some Rejected
          else
            Some (Loaded (applyFiltersAndSort
              {| headers := hs;
                 data := asRows body;
                 colTypes := detectColTypes hs (asRows body);
                 filtered := filtered st;
                 sortCol := -1;
                 sortDir := NoSort;
                 globalSearch := [];
                 colFilters := replicate (length hs) (Some []);
                 page := 1;
                 pageSize := pageSize st;
                 fileName := fileName st |}))
      end
  end.

(** A button or an ellipsis span of the pagination bar: [makeBtn(label,
    targetPage, disabled, active, ariaLabel)] (app.js 195-210). *)
Inductive Control :=
| Button (label : str) (targetPage : Z) (disabled active : bool) (ariaLabel : str)
| Span.

(** [ariaLabel || `Page ${targetPage}`] *)
Definition makeBtn (label : str) (targetPage : Z) (disabled active : bool)
           (ariaLabel : option str) : Control :=
  Button label targetPage disabled active
         (match ariaLabel with
          | Some (_ :: _ as a) => a
          | _ => lit "Page " ++ intToString targetPage
          end).

(** A button gets its [onclick] when it is neither disabled nor active. *)
Definition clickable (x : Control) : option Z :=
  match x with
  | Button _ targetPage disabled active _ =>
      if negb disabled && negb active then Some targetPage else None
  | Span => None
  end.

(** The controls [renderPagination] puts in the bar (app.js 186-224). *)
Definition renderPagination (st : State) : list Control :=
  let total := totalPages st in
  if total <=? 1 then []
  else
    let cur := page st in
    [makeBtn [8249%N] (cur - 1) (cur =? 1) false (Some (lit "Previous page"))] ++
    List.map
      (fun p =>
         match p with
         | Ellipsis => Span
         | Page p => makeBtn (intToString p) p false (p =? cur) None
         end)
      (buildPageList cur total) ++
    [makeBtn [8250%N] (cur + 1) (cur =? total) false (Some (lit "Next page"))].

(** The first and the last row number [renderRowInfo] shows, when it
    shows a range (app.js 234-240). *)
Definition rowRange (st : State) : option (Z * Z) :=
  let matchCount := Z.of_nat (length (filtered st)) in
  if (pageSize st =? 0) || (matchCount =? 0) then None
  else
    let start := (page st - 1) * pageSize st + 1 in
    let stop := Z.min (page st * pageSize st) matchCount in
    Some (start, stop).

(** The text of [renderRowInfo] (app.js 229-250). *)
Definition renderRowInfo (st : State) : str :=
  let matchCount := Z.of_nat (length (filtered st)) in
  let allCount := Z.of_nat (length (data st)) in
  let rangeText :=
    match rowRange st with
    | None => intToString matchCount
    | Some (start, stop) => intToString start ++ [8211%N] ++ intToString stop
    end in
  let text := rangeText ++ lit " of " ++ intToString matchCount in
  let text :=
    if negb (matchCount =? allCount)
    then text ++ lit " (" ++ intToString allCount ++ lit " total)"
    else text in
  text ++ lit " rows".

(** The first statement of [loadFile] that touches the state, for a file
    that passes [isCSVFile] (app.js 297). *)
Definition onFileChosen (name : str) (st : State) : State :=
  {| headers := headers st;
     data := data st;
     colTypes := colTypes st;
     filtered := filtered st;
     sortCol := sortCol st;
     sortDir := sortDir st;
     globalSearch := globalSearch st;
     colFilters := colFilters st;
     page := page st;
     pageSize := pageSize st;
     fileName := name |}.

(** The state together with the controls the render functions have left
    in the document: the header cells of the last [renderHeader], the
    filter inputs of the last [renderFilterRow] and the bar of the last
    [renderPagination].  Their handlers are the only way back into the
    state, and a render function that is not called leaves its controls as
    they were. *)
Record Screen := {
  st : State;
  headerCells : nat;
  filterInputs : nat;
  bar : list Control
}.

(** Before a file is loaded no render function has run. *)
Definition start : Screen :=
  {| st := initial; headerCells := 0; filterInputs := 0; bar := [] |}.

(** [renderBody(); renderPagination(); renderRowInfo()] after a change of
    the state: of the controls, the bar is rebuilt. *)
Definition rerender (st' : State) (s : Screen) : Screen :=
  {| st := st';
     headerCells := headerCells s;
     filterInputs := filterInputs s;
     bar := renderPagination st' |}.

(** [renderAll] (app.js 256-262) *)
Definition renderAll (st' : State) : Screen :=
  {| st := st';
     headerCells := length (headers st');
     filterInputs := length (headers st');
     bar := renderPagination st' |}.

(** What the user can do.  The size of a page comes from a select whose
    values are whole numbers, 0 for all rows. *)
Inductive Event :=
| ClickHeader (c : nat)
| FilterInput (c : nat) (value : str)
| SearchInput (value : str)
| ClearSearch
| PageSizeChange (n : Z)
| PageClick (targetPage : Z)
| Reset
| FileChosen (name : str).

(** The listeners (app.js 88-105, 141-147, 203-208, 379-388, 433-460). *)
Definition handle (e : Event) (s : Screen) : Screen :=
  match e with
  | ClickHeader c =>
      let st' := activate c (st s) in
      {| st := st';
         headerCells := length (headers st');
         filterInputs := filterInputs s;
         bar := renderPagination st' |}
  | FilterInput c value => rerender (onFilterInput c value (st s)) s
  | SearchInput value => rerender (onSearchInput value (st s)) s
  | ClearSearch => rerender (onClearSearch (st s)) s
  | PageSizeChange n => rerender (onPageSize n (st s)) s
  | PageClick targetPage => rerender (onPageClick targetPage (st s)) s
  | Reset =>
      {| st := resetToUpload (st s);
         headerCells := headerCells s;
         filterInputs := filterInputs s;
         bar := bar s |}
  | FileChosen name =>
      {| st := onFileChosen name (st s);
         headerCells := headerCells s;
         filterInputs := filterInputs s;
         bar := bar s |}
  end.

(** The event has a control to come from: a header cell or a filter input
    that was rendered, a button of the bar that got its [onclick]. *)
Definition enabled (e : Event) (s : Screen) : Prop :=
  match e with
  | ClickHeader c => (c < headerCells s)%nat
  | FilterInput c _ => (c < filterInputs s)%nat
  | PageClick targetPage =>
      exists x, In x (bar s) /\ clickable x = Some targetPage
  | _ => True
  end.

(** [reader.onload] on the screen: an upload error leaves it as it is, a
    table is shown by [renderAll]. *)
Definition load (text : str) (s : Screen) : option Screen :=
  match onload text (st s) with
  | None => None
  | Some Rejected => Some s
  | Some (Loaded st') => Some (renderAll st')
  end.

(** The screens the application can show: what a sequence of events and
    of files read leads to. *)
Inductive reachable : Screen -> Prop :=
| reach_start : reachable start
| reach_event (e : Event) (s : Screen) :
    reachable s -> enabled e s -> reachable (handle e s)
| reach_load (text : str) (s s' : Screen) :
    reachable s -> load text s = Some s' -> reachable s'.

(** The view is the filtered and sorted data. *)
Definition inSync (st : State) : Prop :=
  filtered st
  = sortRows (filterRows (data st) (Some (headers st)) (Some (globalSearch st))
                         (Some (colFilters st)))
             (sortCol st) (sortDir st) (Some (colTypes st)).

End Handlers.

End App.

(** ** Vocabulary of the further properties *)

(** A field that was not in quotes: trimmed, and free of the delimiter and
    of line breaks. *)
Definition bareField (delim : char) (f : str) : Prop :=
  Js.trim f = f /\ Forall (fun c => c <> delim /\ c <> CR /\ c <> LF) f.

(** The comparator orders the elements of [l] consistently: no two are
    each after the other, and an element that is not after a second, which
    is not after a third, is not after the third. *)
Definition consistentOn {A} (comparefn : A -> A -> JsNum.num) (l : list A) : bool :=
  forallb
    (fun x =>
       forallb
         (fun y =>
            (negb (JsArray.after comparefn x y) || negb (JsArray.after comparefn y x)) &&
            forallb
              (fun z =>
                 JsArray.after comparefn x y || JsArray.after comparefn y z ||
                 negb (JsArray.after comparefn x z))
              l)
         l)
    l.

(** The text with every line feed written as carriage return, line
    feed. *)
Fixpoint withCRLF (t : str) : str :=
  match t with
  | [] => []
  | c :: t' => if (c =? LF)%N then CR :: LF :: withCRLF t' else c :: withCRLF t'
  end.


(** A file of three columns and three rows, the second header empty and a
    blank line before the last row; and the screen after the user has
    loaded it, chosen pages of two rows and gone to the second page. *)
Definition exampleText : str :=
  lit "n,,s" ++ [LF] ++ lit "2,b,x" ++ [LF] ++ lit "10,a,y" ++ [LF; LF] ++ lit "1,c,z".

Definition exampleScreen : App.Screen :=
  @App.handle asciiHost (App.PageClick 2)
    (@App.handle asciiHost (App.PageSizeChange 2)
       (default App.start (@App.load asciiHost exampleText App.start))).

(** The page numbers of a page list, without the ellipsis markers. *)
Fixpoint pageNumbers (l : list PageItem) : list Z :=
  match l with
  | [] => []
  | Page p :: l' => p :: pageNumbers l'
  | Ellipsis :: l' => pageNumbers l'
  end.

(* ================================================================== *)
(** * Properties *)
(* ================================================================== *)

(** ** Paginator *)

Lemma firstn_clip {A} (l : list A) (n : nat) :
  firstn (Nat.min n (length l)) l = firstn n l.
Proof.
  destruct (Nat.le_ge_cases n (length l)) as [Hle | Hge].
  - now rewrite Nat.min_l.
  - rewrite Nat.min_r by exact Hge.
    rewrite firstn_all. symmetry. now apply firstn_all2.
Qed.

Lemma slice_nonneg {A} (l : list A) (start stop : Z) :
  0 <= start -> start <= stop -> Js.slice l start stop = range l start stop.
Proof.
  intros Hs Hst. unfold Js.slice, range, Js.sliceIndex.
  destruct (Z.ltb_spec start 0) as [?|_]; [lia|].
  destruct (Z.ltb_spec stop 0) as [?|_]; [lia|].
  set (len := Z.of_nat (length l)).
  destruct (Z.le_gt_cases start len) as [Hin | Hout].
  - rewrite (Z.min_l start len) by exact Hin.
    rewrite <- (firstn_clip (skipn (Z.to_nat start) l) (Z.to_nat (stop - start))).
    f_equal. rewrite length_skipn. subst len. lia.
  - rewrite (Z.min_r start len) by lia.
    rewrite !skipn_all2 by (subst len; lia).
    now rewrite !firstn_nil.
Qed.

Lemma slice_empty {A} (l : list A) (start stop : Z) :
  Js.sliceIndex (Z.of_nat (length l)) stop <= Js.sliceIndex (Z.of_nat (length l)) start ->
  Js.slice l start stop = [].
Proof.
  intros H. unfold Js.slice.
  replace (Z.to_nat _) with O by lia. reflexivity.
Qed.

Lemma getPageSlice_range {A} (rows : list A) (page pageSize : Z) :
  0 < pageSize -> 1 <= page ->
  getPageSlice rows page pageSize
  = range rows ((page - 1) * pageSize) (page * pageSize).
Proof.
  intros Hps Hp. unfold getPageSlice.
  destruct (Z.eqb_spec pageSize 0) as [?|_]; [lia|].
  rewrite slice_nonneg by nia. f_equal; nia.
Qed.

(** C2, as the code has it.  With [pageSize = 0] every row is returned,
    whatever the page.  With a positive [pageSize] and a page of at least 1
    the result is the half-open range [(page-1)*pageSize, page*pageSize) of
    the rows, clipped to the rows there are; it is empty for every page
    past the last one, and for page 0.  Nothing is said of negative pages:
    [slice] counts a negative index from the end of the array. *)
Theorem getPageSlice_spec {A} (rows : list A) (page pageSize : Z) :
  (pageSize = 0 -> getPageSlice rows page pageSize = rows) /\
  (0 < pageSize -> 1 <= page ->
   getPageSlice rows page pageSize
   = range rows ((page - 1) * pageSize) (page * pageSize)) /\
  (0 < pageSize ->
   page = 0 \/ Z.of_nat (length rows) <= (page - 1) * pageSize ->
   getPageSlice rows page pageSize = []).
Proof.
  repeat split.
  - intros ->. reflexivity.
  - apply getPageSlice_range.
  - intros Hps Hp. unfold getPageSlice.
    destruct (Z.eqb_spec pageSize 0) as [?|_]; [lia|].
    apply slice_empty. unfold Js.sliceIndex.
    destruct Hp as [-> | Hp].
    + destruct (Z.ltb_spec ((0 - 1) * pageSize) 0); [|lia].
      destruct (Z.ltb_spec ((0 - 1) * pageSize + pageSize) 0); lia.
    + destruct (Z.ltb_spec ((page - 1) * pageSize) 0); [lia|].
      destruct (Z.ltb_spec ((page - 1) * pageSize + pageSize) 0); lia.
Qed.

Lemma getPageSlice_spec_witness :
  getPageSlice [10; 20; 30; 40; 50] 1 0 = [10; 20; 30; 40; 50] /\
  getPageSlice [10; 20; 30; 40; 50] 3 2 = [50] /\
  getPageSlice [10; 20; 30; 40; 50] 99 2 = [].
Proof.
  destruct (getPageSlice_spec [10; 20; 30; 40; 50] 1 0) as (H0 & _ & _).
  destruct (getPageSlice_spec [10; 20; 30; 40; 50] 3 2) as (_ & H1 & _).
  destruct (getPageSlice_spec [10; 20; 30; 40; 50] 99 2) as (_ & _ & H2).
  split; [apply H0; reflexivity|].
  split; [rewrite H1 by lia; reflexivity|].
  apply H2; [lia | right; simpl; lia].
Defined.

(** C2 as stated fails for a page below 0: page -1 of three rows, one row
    a page, is the slice [-2, -1), the second row, not the empty slice. *)
Lemma getPageSlice_negative_page :
  -1 < 1 /\ getPageSlice [10; 20; 30] (-1) 1 = [20] /\
  getPageSlice [10; 20; 30] (-1) 1 <> [].
Proof. split; [lia|]. split; [reflexivity | discriminate]. Qed.

Lemma range_chunks {A} (rows : list A) (ps : nat) (k : nat) :
  concat (List.map (fun p => firstn ps (skipn ((p - 1) * ps) rows)) (seq 1 k))
  = firstn (k * ps) rows.
Proof.
  induction k as [|k IH].
  - reflexivity.
  - rewrite seq_S, List.map_app, concat_app, IH. simpl.
    rewrite app_nil_r, Nat.sub_0_r.
    rewrite <- (firstn_skipn (k * ps) (firstn (ps + k * ps) rows)) at 1.
    rewrite firstn_firstn, skipn_firstn_comm.
    replace (Nat.min (k * ps) (ps + k * ps)) with (k * ps)%nat by lia.
    replace (ps + k * ps - k * ps)%nat with ps by lia.
    reflexivity.
Qed.

Lemma ceilDiv_covers (a b : Z) : 0 < b -> a <= ceilDiv a b * b.
Proof.
  intros Hb. unfold ceilDiv.
  pose proof (Z.mul_div_le (- a) b Hb). nia.
Qed.

(** C7.  For a positive page size the slices of the pages
    1..calcTotalPages(length rows, pageSize), one after the other, are the
    rows: none missing, none twice, in the same order. *)
Theorem pagination_coverage {A} (rows : list A) (pageSize : Z) :
  0 < pageSize ->
  allPages rows pageSize (calcTotalPages (Z.of_nat (length rows)) pageSize) = rows.
Proof.
  intros Hps. unfold allPages.
  set (n := Z.to_nat (calcTotalPages (Z.of_nat (length rows)) pageSize)).
  assert (Hcover : (length rows <= n * Z.to_nat pageSize)%nat).
  { subst n. unfold calcTotalPages.
    destruct (Z.eqb_spec pageSize 0) as [?|_]; [lia|].
    pose proof (ceilDiv_covers (Z.of_nat (length rows)) pageSize Hps). nia. }
  rewrite (map_ext_in _ (fun p => firstn (Z.to_nat pageSize)
                                 (skipn ((p - 1) * Z.to_nat pageSize) rows))).
  - rewrite range_chunks. now apply firstn_all2.
  - intros p Hp. apply in_seq in Hp.
    rewrite getPageSlice_range by lia. unfold range. f_equal; [lia|]. f_equal. nia.
Qed.

Lemma pagination_coverage_witness :
  allPages [1; 2; 3; 4; 5] 2 (calcTotalPages (Z.of_nat (length [1; 2; 3; 4; 5])) 2)
  = [1; 2; 3; 4; 5].
Proof. apply (pagination_coverage [1; 2; 3; 4; 5] 2). lia. Defined.

Lemma adjacentEllipsis_snoc (l : list PageItem) (x : PageItem) :
  adjacentEllipsis (l ++ [x])
  = adjacentEllipsis l ||
    match last l with
    | Some y => isEllipsis y && isEllipsis x
    | None => false
    end.
Proof.
  induction l as [|a l IH]; [reflexivity|].
  destruct l as [|b l].
  - simpl. now rewrite !orb_false_r.
  - change (adjacentEllipsis ((a :: b :: l) ++ [x]))
      with ((isEllipsis a && isEllipsis b) || adjacentEllipsis ((b :: l) ++ [x])).
    rewrite IH. change (last (a :: b :: l)) with (last (b :: l)).
    simpl adjacentEllipsis. now rewrite orb_assoc.
Qed.

Lemma adjacentEllipsis_push (l : list PageItem) (p : Z) :
  adjacentEllipsis l = false -> adjacentEllipsis (l ++ [Page p]) = false.
Proof.
  intros H. rewrite adjacentEllipsis_snoc, H.
  destruct (last l); simpl; [apply andb_false_r | reflexivity].
Qed.

Lemma adjacentEllipsis_addEllipsis (l : list PageItem) :
  adjacentEllipsis l = false -> adjacentEllipsis (addEllipsis l) = false.
Proof.
  intros H. unfold addEllipsis.
  destruct (last l) as [[p|]|] eqn:Hlast; try exact H;
    rewrite adjacentEllipsis_snoc, H, Hlast; reflexivity.
Qed.

Lemma pushPages_app (lo hi : Z) (l : list PageItem) :
  pushPages lo hi l = l ++ pushPages lo hi [].
Proof.
  unfold pushPages. generalize (seq 0 (Z.to_nat (hi - lo + 1))) as idx.
  intros idx. revert l. induction idx as [|i idx IH]; intros l; simpl.
  - now rewrite app_nil_r.
  - rewrite IH, (IH [Page _]). now rewrite <- app_assoc.
Qed.

Lemma adjacentEllipsis_pushPages (lo hi : Z) (l : list PageItem) :
  adjacentEllipsis l = false -> adjacentEllipsis (pushPages lo hi l) = false.
Proof.
  unfold pushPages. generalize (seq 0 (Z.to_nat (hi - lo + 1))) as idx.
  intros idx. revert l. induction idx as [|i idx IH]; intros l H; simpl.
  - exact H.
  - apply IH. now apply adjacentEllipsis_push.
Qed.

Lemma addEllipsis_app (l : list PageItem) :
  addEllipsis l = l \/ addEllipsis l = l ++ [Ellipsis].
Proof. unfold addEllipsis. destruct (last l) as [[?|]|]; auto. Qed.

Lemma head_app_cons {A} (x : A) (l l' : list A) :
  head ((x :: l) ++ l') = Some x.
Proof. reflexivity. Qed.

Lemma buildPageList_small (cur total : Z) :
  total <= 7 -> buildPageList cur total = pagesUpTo total.
Proof.
  intros H. unfold buildPageList, pagesUpTo.
  destruct (Z.leb_spec total 7) as [_|?]; [|lia].
  rewrite <- seq_shift, List.map_map.
  apply map_ext. intros i. f_equal. lia.
Qed.

Lemma pagesUpTo_no_ellipsis (n : Z) : existsb isEllipsis (pagesUpTo n) = false.
Proof.
  unfold pagesUpTo. induction (seq 1 (Z.to_nat n)) as [|i l IH]; [reflexivity|exact IH].
Qed.

Lemma pagesUpTo_no_adjacent (n : Z) : adjacentEllipsis (pagesUpTo n) = false.
Proof.
  unfold pagesUpTo. induction (seq 1 (Z.to_nat n)) as [|i l IH]; [reflexivity|].
  destruct l; [reflexivity | exact IH].
Qed.

Lemma pagesUpTo_ends (n : Z) :
  1 <= n -> head (pagesUpTo n) = Some (Page 1) /\ last (pagesUpTo n) = Some (Page n).
Proof.
  intros Hn. unfold pagesUpTo.
  destruct (Z.to_nat n) as [|k] eqn:Hk; [lia|]. split.
  - reflexivity.
  - rewrite seq_S, List.map_app. simpl. rewrite last_snoc. do 2 f_equal. lia.
Qed.

(** The list for more than 7 pages: page 1, then entries, then the last
    page, with no marker next to a marker. *)
Lemma buildPageList_large (cur total : Z) :
  7 < total ->
  adjacentEllipsis (buildPageList cur total) = false /\
  head (buildPageList cur total) = Some (Page 1) /\
  last (buildPageList cur total) = Some (Page total).
Proof.
  intros H. unfold buildPageList.
  destruct (Z.leb_spec total 7) as [?|_]; [lia|].
  set (r1 := if 3 <? cur then addEllipsis ([] ++ [Page 1]) else [] ++ [Page 1]).
  set (r2 := pushPages (Z.max 2 (cur - 1)) (Z.min (total - 1) (cur + 1)) r1).
  set (r3 := if cur <? total - 2 then addEllipsis r2 else r2).
  assert (A1 : adjacentEllipsis r1 = false) by (subst r1; destruct (3 <? cur); reflexivity).
  assert (H1 : exists t, r1 = Page 1 :: t) by (subst r1; destruct (3 <? cur); eauto).
  assert (A2 : adjacentEllipsis r2 = false) by now apply adjacentEllipsis_pushPages.
  assert (H2 : exists t, r2 = Page 1 :: t).
  { destruct H1 as [t Ht]. subst r2. rewrite pushPages_app, Ht. eauto. }
  assert (A3 : adjacentEllipsis r3 = false).
  { subst r3. destruct (cur <? total - 2); [now apply adjacentEllipsis_addEllipsis | exact A2]. }
  assert (H3 : exists t, r3 = Page 1 :: t).
  { destruct H2 as [t Ht]. subst r3. destruct (cur <? total - 2); [|eauto].
    destruct (addEllipsis_app r2) as [-> | ->]; rewrite Ht; eauto. }
  split; [now apply adjacentEllipsis_push|]. split.
  - destruct H3 as [t ->]. reflexivity.
  - apply last_snoc.
Qed.

(** C9.  For every [total] in 1..100 and every [current] in 1..total the
    page list has no two ellipsis markers next to each other, starts with
    page 1 and, when [total > 1], ends with page [total]; when [total <= 7]
    it is the list 1..total and has no ellipsis marker. *)
Theorem buildPageList_wellformed (current total : Z) :
  1 <= total <= 100 -> 1 <= current <= total ->
  adjacentEllipsis (buildPageList current total) = false /\
  head (buildPageList current total) = Some (Page 1) /\
  (1 < total -> last (buildPageList current total) = Some (Page total)) /\
  (total <= 7 ->
   buildPageList current total = pagesUpTo total /\
   existsb isEllipsis (buildPageList current total) = false).
Proof.
  intros Ht Hc.
  destruct (Z.le_gt_cases total 7) as [Hsmall | Hlarge].
  - rewrite (buildPageList_small current total Hsmall).
    destruct (pagesUpTo_ends total) as [Hh Hl]; [lia|].
    repeat split; auto using pagesUpTo_no_adjacent, pagesUpTo_no_ellipsis.
  - destruct (buildPageList_large current total Hlarge) as (Ha & Hh & Hl).
    repeat split; auto; lia.
Qed.

Lemma buildPageList_wellformed_witness :
  adjacentEllipsis (buildPageList 10 20) = false /\
  head (buildPageList 10 20) = Some (Page 1) /\
  last (buildPageList 10 20) = Some (Page 20) /\
  buildPageList 4 5 = pagesUpTo 5.
Proof.
  destruct (buildPageList_wellformed 10 20) as (Ha & Hh & Hl & _); [lia | lia |].
  destruct (buildPageList_wellformed 4 5) as (_ & _ & _ & Hs); [lia | lia |].
  split; [exact Ha|]. split; [exact Hh|]. split; [apply Hl; lia|].
  apply Hs. lia.
Defined.

(** ** Parser: the loops end *)

Lemma scanQuoted_shorter (n : nat) :
  forall t field, (length t <= n)%nat ->
  (length (snd (scanQuoted t field)) <= length t)%nat.
Proof.
  induction n as [|n IH]; intros t field Hn.
  - destruct t; [simpl; lia | simpl in Hn; lia].
  - destruct t as [|c t]; [simpl; lia|].
    simpl in Hn. simpl scanQuoted.
    destruct (c =? QUOTE)%N.
    + destruct t as [|c' t]; [simpl; lia|].
      destruct (c' =? QUOTE)%N; [|simpl; lia].
      simpl in Hn. specialize (IH t (field ++ [QUOTE])). simpl. lia.
    + specialize (IH t (field ++ [c])). simpl. lia.
Qed.

Lemma scanUnquoted_stops (delim : char) (t field : str) :
  stopsAt delim (snd (scanUnquoted delim t field)) /\
  (length (snd (scanUnquoted delim t field)) <= length t)%nat.
Proof.
  revert field. induction t as [|c t IH]; intros field; simpl.
  - split; [exact I | lia].
  - destruct ((c =? delim) || (c =? CR) || (c =? LF))%N eqn:Hc.
    + split; [exact Hc | simpl; lia].
    + destruct (IH (field ++ [c])) as [Hs Hl]. split; [exact Hs | lia].
Qed.

Lemma skipLF_shorter (t : str) : (length (skipLF t) <= length t)%nat.
Proof. destruct t as [|c t]; simpl; [lia|]. destruct (c =? LF)%N; simpl; lia. Qed.

Lemma parseRow_total (delim : char) (fuel : nat) :
  forall t row, (length t < fuel)%nat ->
  exists row' t', parseRow fuel delim t row = Some (row', t') /\
                  (length t' <= length t)%nat /\
                  (t <> [] -> (length t' < length t)%nat).
Proof.
  induction fuel as [|fuel IH]; intros t row Hfuel; [lia|].
  destruct t as [|c t].
  - exists row, []. simpl. repeat split; [lia | congruence].
  - simpl in Hfuel. cbn [parseRow].
    destruct (c =? QUOTE)%N.
    + pose proof (scanQuoted_shorter (length t) t [] (Nat.le_refl _)) as Hq.
      destruct (scanQuoted t []) as [field t1]. simpl in Hq.
      destruct t1 as [|d t2].
      { eexists _, _. split; [reflexivity|]. simpl. split; [lia|intros _; lia]. }
      simpl in Hq.
      destruct (d =? delim)%N.
      { destruct (IH t2 (row ++ [field])) as (row' & t' & -> & Hle & _); [lia|].
        eexists _, _. split; [reflexivity|]. simpl. split; [lia|intros _; lia]. }
      destruct (d =? CR)%N.
      { pose proof (skipLF_shorter t2).
        eexists _, _. split; [reflexivity|]. simpl. split; [lia|intros _; lia]. }
      destruct (d =? LF)%N.
      { eexists _, _. split; [reflexivity|]. simpl. split; [lia|intros _; lia]. }
      destruct (IH (d :: t2) (row ++ [field])) as (row' & t' & -> & Hle & _);
        [simpl; lia|].
      simpl in Hle.
      eexists _, _. split; [reflexivity|]. simpl. split; [lia|intros _; lia].
    + destruct (scanUnquoted_stops delim (c :: t) []) as [Hstop Hu].
      destruct (scanUnquoted delim (c :: t) []) as [field t1]. simpl in Hstop, Hu.
      destruct t1 as [|d t2].
      { eexists _, _. split; [reflexivity|]. simpl. split; [lia|intros _; lia]. }
      simpl in Hu, Hstop.
      destruct (d =? delim)%N.
      { destruct (IH t2 (row ++ [Js.trim field])) as (row' & t' & -> & Hle & _); [lia|].
        eexists _, _. split; [reflexivity|]. simpl. split; [lia|intros _; lia]. }
      destruct (d =? CR)%N.
      { pose proof (skipLF_shorter t2).
        eexists _, _. split; [reflexivity|]. simpl. split; [lia|intros _; lia]. }
      destruct (d =? LF)%N; [|discriminate].
      eexists _, _. split; [reflexivity|]. simpl. split; [lia|intros _; lia].
Qed.

Lemma parseRows_total (delim : char) (fuel : nat) :
  forall t rows, (length t < fuel)%nat ->
  exists rs, parseRows fuel delim t rows = Some rs.
Proof.
  induction fuel as [|fuel IH]; intros t rows Hfuel; [lia|].
  destruct t as [|c t]; [eexists; reflexivity|].
  unfold parseRows; fold parseRows.
  destruct (parseRow_total delim (S (length (c :: t))) (c :: t) [])
    as (row & t1 & -> & _ & Hlt); [lia|].
  specialize (Hlt ltac:(discriminate)).
  apply IH. simpl in Hlt, Hfuel. lia.
Qed.

(** [parseCSV] returns on every text, with the delimiter it detected. *)
Lemma parseCSV_total (text : str) :
  exists rs, parseCSV text
             = Some {| rows := rs; delim := detectDelim (stripBOM text) |}.
Proof.
  unfold parseCSV.
  destruct (parseRows_total (detectDelim (stripBOM text))
              (S (length (stripBOM text))) (stripBOM text) []) as [rs ->]; [lia|].
  now exists rs.
Qed.

(** ** Parser: the delimiter *)

Lemma split1_nonempty (d : char) (s : str) : Js.split1 d s <> [].
Proof.
  induction s as [|c s IH]; simpl; [discriminate|].
  destruct (c =? d)%N; [discriminate|].
  destruct (Js.split1 d s); [contradiction | discriminate].
Qed.

Lemma countDelim_occurrences (line : str) (d : char) :
  countDelim line d = occurrences d line.
Proof.
  unfold countDelim, occurrences.
  induction line as [|c s IH]; [reflexivity|].
  simpl. destruct (c =? d)%N.
  - simpl length. lia.
  - pose proof (split1_nonempty d s).
    destruct (Js.split1 d s) as [|p ps]; [contradiction|].
    simpl length in *. lia.
Qed.

(** The delimiter is the first candidate, in the order of [delims], whose
    number of occurrences in the line is the largest. *)
Lemma detectDelim_first_max (text : str) :
  let line := Js.firstLine text in
  exists j : nat,
    delims !! j = Some (detectDelim text) /\
    (forall i d, delims !! i = Some d ->
                 occurrences d line <= occurrences (detectDelim text) line) /\
    (forall i d, delims !! i = Some d -> (i < j)%nat ->
                 occurrences d line < occurrences (detectDelim text) line).
Proof.
  intros line. unfold detectDelim. fold line.
  unfold delims, delimStep. simpl fold_left.
  rewrite !countDelim_occurrences.
  assert (H0 : forall d, 0 <= occurrences d line) by (intros; unfold occurrences; lia).
  pose proof (H0 COMMA). pose proof (H0 SEMI). pose proof (H0 TAB). pose proof (H0 PIPE).
  clear H0.
  set (pick j :=
         [COMMA; SEMI; TAB; PIPE] !! j = Some (nth j [COMMA; SEMI; TAB; PIPE] COMMA)).
  destruct (0 <? occurrences COMMA line) eqn:E1; simpl snd;
  destruct (_ <? occurrences SEMI line) eqn:E2; simpl snd;
  destruct (_ <? occurrences TAB line) eqn:E3; simpl snd;
  destruct (_ <? occurrences PIPE line) eqn:E4; simpl fst;
  repeat match goal with
         | H : (_ <? _) = true |- _ => apply Z.ltb_lt in H
         | H : (_ <? _) = false |- _ => apply Z.ltb_ge in H
         end;
  let finish :=
    (split; [reflexivity|];
     split; intros i d Hi;
     (destruct i as [|[|[|[|i]]]]; [ | | | | discriminate Hi]);
     injection Hi as <-; lia) in
  first [ solve [exists 0%nat; finish] | solve [exists 1%nat; finish]
        | solve [exists 2%nat; finish] | solve [exists 3%nat; finish] ].
Qed.

(** [firstLine] is the text up to its first line break. *)
Lemma firstLine_break (t : str) :
  ~ In LF (Js.firstLine t) /\
  exists rest, t = Js.firstLine t ++ rest /\
               (rest = [] \/ exists r, rest = LF :: r \/ rest = CR :: LF :: r).
Proof.
  induction t as [|c t (IHin & rest & IHeq & IHrest)].
  - split; [intros []|]. exists []. split; [reflexivity | now left].
  - cbn [Js.firstLine].
    destruct (N.eqb_spec c LF) as [-> | Hlf].
    { split; [intros []|]. exists (LF :: t). split; [reflexivity|]. right. eauto. }
    destruct (N.eqb_spec c CR) as [-> | Hcr]; cbn [andb].
    + destruct t as [|d t'].
      { split; [intros [H|[]]; discriminate H|].
        exists []. split; [reflexivity | now left]. }
      destruct (N.eqb_spec d LF) as [-> | Hd].
      { split; [intros []|]. exists (CR :: LF :: t'). split; [reflexivity|]. right. eauto. }
      split; [intros [H|H]; [discriminate H | contradiction]|].
      exists rest. split; [|exact IHrest]. cbn [app]. now rewrite <- IHeq.
    + split; [intros [H|H]; [congruence | contradiction]|].
      exists rest. split; [|exact IHrest]. cbn [app]. now rewrite <- IHeq.
Qed.

(** C6.  [parseCSV] returns, and its delimiter is the candidate with the
    most occurrences in the first line of the text without its byte order
    mark (the text up to its first line break), the candidates being taken
    in the order comma, semicolon, tab, pipe: no candidate occurs more
    often, every candidate listed before it occurs less often (a tie goes
    to the one listed first), and when no candidate occurs the delimiter is
    the comma. *)
Theorem parseCSV_delimiter (text : str) :
  let line := Js.firstLine (stripBOM text) in
  (~ In LF line /\
   exists rest, stripBOM text = line ++ rest /\
                (rest = [] \/ exists r, rest = LF :: r \/ rest = CR :: LF :: r)) /\
  exists r, parseCSV text = Some r /\
  exists j : nat,
    delims !! j = Some (delim r) /\
    (forall i d, delims !! i = Some d ->
                 occurrences d line <= occurrences (delim r) line) /\
    (forall i d, delims !! i = Some d -> (i < j)%nat ->
                 occurrences d line < occurrences (delim r) line) /\
    ((forall d, In d delims -> occurrences d line = 0) -> delim r = COMMA).
Proof.
  intros line. split; [apply firstLine_break|].
  destruct (parseCSV_total text) as [rs Hrs].
  eexists. split; [exact Hrs|]. simpl delim.
  destruct (detectDelim_first_max (stripBOM text)) as (j & Hj & Hmax & Hfirst).
  exists j. fold line in Hmax, Hfirst. repeat split; auto.
  intros Hzero. destruct j as [|j]; [now injection Hj|].
  specialize (Hfirst O COMMA eq_refl ltac:(lia)).
  rewrite (Hzero COMMA) in Hfirst by (left; reflexivity).
  assert (In (detectDelim (stripBOM text)) delims) as Hin.
  { apply list_elem_of_In. eapply list_elem_of_lookup_2. exact Hj. }
  rewrite (Hzero _ Hin) in Hfirst. lia.
Qed.

Lemma parseCSV_delimiter_witness :
  exists r, parseCSV (lit "a;b,c;d") = Some r /\ delim r = SEMI.
Proof.
  destruct (parseCSV_delimiter (lit "a;b,c;d")) as (_ & r & Hr & _).
  exists r. split; [exact Hr|].
  vm_compute in Hr. injection Hr as <-. reflexivity.
Defined.

(** ** Filter engine *)

Lemma filter_idempotent {A} (p : A -> bool) (l : list A) :
  List.filter p (List.filter p l) = List.filter p l.
Proof.
  induction l as [|x l IH]; [reflexivity|].
  simpl. destruct (p x) eqn:Hp; [|exact IH].
  simpl. now rewrite Hp, IH.
Qed.

(** C8.  Filtering the filtered rows again with the same headers, search
    and column filters gives the same rows. *)
Theorem filterRows_idempotent `{Host} (data : list Row) (h : option (list str))
        (s : cell) (f : option (list cell)) :
  filterRows (filterRows data h s f) h s f = filterRows data h s f.
Proof. unfold filterRows. apply filter_idempotent. Qed.

(** ** Sort engine *)

Lemma insert_permutation {A} (cmp : A -> A -> JsNum.num) (x : A) (l : list A) :
  Permutation (JsArray.insert cmp x l) (x :: l).
Proof.
  induction l as [|y l IH]; [reflexivity|].
  simpl. destruct (JsArray.after cmp x y); [|reflexivity].
  rewrite IH. apply perm_swap.
Qed.

Lemma sort_permutation {A} (cmp : A -> A -> JsNum.num) (l : list A) :
  Permutation (JsArray.sort cmp l) l.
Proof.
  induction l as [|x l IH]; [reflexivity|].
  simpl. rewrite insert_permutation. now apply perm_skip.
Qed.

(** C10.  The rows [sortRows] returns are a permutation of the rows it is
    given, for every column, direction and type map and for every host:
    nothing in the proof depends on what the comparator answers, so it
    covers equal keys and a comparator that is not consistent. *)
Theorem sortRows_permutation `{Host} (rows : list Row) (sortCol : Z)
        (sortDir : SortDir) (colTypes : option (gmap Z ColType)) :
  Permutation (sortRows rows sortCol sortDir colTypes) rows /\
  forall row : Row,
    copies (sortRows rows sortCol sortDir colTypes) row = copies rows row.
Proof.
  assert (Hperm : Permutation (sortRows rows sortCol sortDir colTypes) rows).
  { unfold sortRows. destruct (_ || _); [reflexivity | apply sort_permutation]. }
  split; [exact Hperm|].
  intros row. unfold copies. now apply Permutation_count_occ.
Qed.

(** ** Filter engine: the rows kept *)

Section FilterSpec.
Context `{Host}.
Hypothesis toLowerCase_empty : forall s, toLowerCase s = [] <-> s = [].

Lemma nonEmpty_false (s : str) : nonEmpty s = false <-> s = [].
Proof. destruct s; simpl; split; congruence. Qed.

Lemma search_step (globalSearch : cell) (row : Row) :
  nonEmpty (toLowerCase (cellStr globalSearch)) &&
  negb (existsb (fun x => Js.includes (toLowerCase (cellStr x))
                            (toLowerCase (cellStr globalSearch))) row) = false
  <-> passesSearch globalSearch row.
Proof.
  unfold passesSearch, containsCI.
  rewrite andb_false_iff, negb_false_iff, nonEmpty_false, toLowerCase_empty.
  rewrite existsb_exists. reflexivity.
Qed.

Lemma columns_step (colFilters : option (list cell)) (colCount : nat) (row : Row) :
  forallb
    (fun c =>
       match List.map (fun f => toLowerCase (cellStr f)) (default [] colFilters) !! c with
       | None | Some [] => true
       | Some f => Js.includes (toLowerCase (cellStr (at_ row c))) f
       end)
    (seq 0 colCount) = true
  <-> passesColumns (fun c => (c < colCount)%nat) colFilters row.
Proof.
  unfold passesColumns, containsCI. rewrite forallb_forall. split.
  - intros Hall c f Hc Hf Hne.
    specialize (Hall c ltac:(apply in_seq; lia)).
    change (List.map ?g ?l) with (g <$> l) in Hall.
    rewrite list_lookup_fmap, Hf in Hall. simpl in Hall.
    destruct (toLowerCase (cellStr f)) eqn:Hlow; [|exact Hall].
    apply (proj1 (toLowerCase_empty _)) in Hlow. destruct (Hne Hlow).
  - intros Hspec c Hc. apply in_seq in Hc.
    change (List.map ?g ?l) with (g <$> l).
    rewrite list_lookup_fmap.
    destruct (default [] colFilters !! c) as [f|] eqn:Hf; [|reflexivity]. simpl.
    destruct (toLowerCase (cellStr f)) eqn:Hlow; [reflexivity|].
    rewrite <- Hlow. apply Hspec; [lia | exact Hf |].
    intros Hempty. apply (proj2 (toLowerCase_empty _)) in Hempty. congruence.
Qed.

Lemma keepsRow_kept (headers : option (list str)) (globalSearch : cell)
      (colFilters : option (list cell)) (row : Row) :
  keepsRow (toLowerCase (cellStr globalSearch))
           (List.map (fun f => toLowerCase (cellStr f)) (default [] colFilters))
           (columnCount headers) row = true
  <-> kept headers globalSearch colFilters row.
Proof.
  unfold keepsRow, kept.
  rewrite <- search_step, <- columns_step.
  destruct (nonEmpty _ && negb _); intuition congruence.
Qed.

End FilterSpec.

(** C3, as the code has it.  Lower-casing is the host's, and leaves no
    non-empty string empty.  [filterRows] returns the rows of [data], in
    their order, that pass a test [keep], and a row passes it exactly when
    (a) the global search is empty or a field of the row contains it, case
    ignored, and (b) for every column index below [headers.length] whose
    [colFilters] entry is not empty, the field of the row in that column
    (the empty string when it is missing or null) contains the entry, case
    ignored. *)
Theorem filterRows_spec `{Host} (data : list Row) (headers : option (list str))
        (globalSearch : cell) (colFilters : option (list cell)) :
  (forall s, toLowerCase s = [] <-> s = []) ->
  exists keep : Row -> bool,
    (forall row, keep row = true <-> kept headers globalSearch colFilters row) /\
    filterRows data headers globalSearch colFilters = List.filter keep data.
Proof.
  intros Hlow.
  exists (keepsRow (toLowerCase (cellStr globalSearch))
            (List.map (fun f => toLowerCase (cellStr f)) (default [] colFilters))
            (columnCount headers)).
  split; [|reflexivity].
  intros row. now apply keepsRow_kept.
Qed.

Lemma asciiLower_empty (s : str) : List.map asciiLower s = [] <-> s = [].
Proof. destruct s; simpl; split; congruence. Qed.

Lemma filterRows_spec_witness :
  exists keep : Row -> bool,
    (forall row, keep row = true
                 <-> @kept asciiHost (Some [lit "name"]) (Some (lit "AL")) None row) /\
    @filterRows asciiHost (asRows [[lit "Alice"]; [lit "Bob"]])
                (Some [lit "name"]) (Some (lit "AL")) None
    = List.filter keep (asRows [[lit "Alice"]; [lit "Bob"]]).
Proof.
  apply (@filterRows_spec asciiHost). exact asciiLower_empty.
Defined.

(** C3 as stated fails when [colFilters] is longer than [headers]: with one
    header and the filters ['', 'x'], the row ['1', '2'] is returned though
    its second field does not contain 'x'. *)
Lemma filterRows_beyond_headers :
  let row : Row := [Some (lit "1"); Some (lit "2")] in
  let colFilters := Some [Some []; Some (lit "x")] in
  @filterRows asciiHost [row] (Some [lit "a"]) None colFilters = [row] /\
  ~ @keptAsStated asciiHost None colFilters row.
Proof.
  split; [reflexivity|].
  intros [_ Hcols].
  specialize (Hcols 1%nat (Some (lit "x")) I eq_refl ltac:(discriminate)).
  discriminate Hcols.
Qed.

(** ** Type detector *)

(** Checked by evaluation for the 125 750 ratios a sample can give. *)
Lemma ratios_agree : ratiosAll 500 500 = true.
Proof. vm_compute. reflexivity. Qed.

Lemma ratiosDown_spec (count : nat) :
  forall n t, ratiosDown count n t = true ->
  forall m, n - Z.of_nat count < m <= n -> ratioOk m t = true.
Proof.
  induction count as [|count IH]; intros n t Hall m Hm; [lia|].
  cbn [ratiosDown] in Hall. apply andb_prop in Hall as [Hn Hrest].
  destruct (Z.eq_dec m n) as [-> | Hne]; [exact Hn|].
  apply (IH (n - 1) t Hrest). lia.
Qed.

Lemma ratiosAll_spec (count : nat) :
  forall t, ratiosAll count t = true ->
  forall d m, t - Z.of_nat count < d <= t -> 0 <= m <= d -> ratioOk m d = true.
Proof.
  induction count as [|count IH]; intros t Hall d m Hd Hm; [lia|].
  cbn [ratiosAll] in Hall. apply andb_prop in Hall as [Ht Hrest].
  destruct (Z.eq_dec d t) as [-> | Hne].
  - apply (ratiosDown_spec _ _ _ Ht). lia.
  - apply (IH (t - 1) Hrest); lia.
Qed.

(** The numbers of the model are the hardware doubles. *)
Lemma ofZ_double (z : Z) :
  0 <= z <= 500 ->
  JsNum.ofZ z = Prim2SF (PrimFloat.of_uint63 (Uint63.of_Z z)).
Proof.
  intros Hz. rewrite of_uint63_spec.
  rewrite <- Uint63.is_int; [reflexivity|].
  split; [lia|]. apply Z.le_lt_trans with 500; [lia | reflexivity].
Qed.

Lemma threshold_double : threshold = Prim2SF threshold64.
Proof. reflexivity. Qed.

Lemma atLeast80_integers (n t : nat) :
  (1 <= t)%nat -> atLeast80 n t = (4 * Z.of_nat t <=? 5 * Z.of_nat n).
Proof.
  intros Ht. unfold atLeast80, Qle_bool. cbn [Qnum Qden].
  assert (Hpos : Z.pos (Pos.of_nat t) = Z.of_nat t).
  { rewrite <- (Nat2Pos.id t) at 2 by lia. symmetry. apply positive_nat_Z. }
  apply eq_true_iff_eq. rewrite !Z.leb_le, Hpos. lia.
Qed.

Lemma ratio_exact (n t : nat) :
  (1 <= t <= 500)%nat -> (n <= t)%nat ->
  JsNum.geb (JsNum.div (JsNum.ofZ (Z.of_nat n)) (JsNum.ofZ (Z.of_nat t))) threshold
  = atLeast80 n t.
Proof.
  intros Ht Hn.
  pose proof (ratiosAll_spec 500 500 ratios_agree (Z.of_nat t) (Z.of_nat n)
                ltac:(lia) ltac:(lia)) as Hok.
  apply eqb_prop in Hok. rewrite atLeast80_integers, <- Hok by lia.
  unfold JsNum.geb, JsNum.div.
  rewrite !ofZ_double by lia.
  change (SFdiv 53 1024) with SF64div.
  now rewrite <- FloatAxioms.div_spec, threshold_double, <- FloatAxioms.leb_spec.
Qed.

Section DetectSpec.
Context `{Host}.

Lemma countRow_step (c : nat) (k : Counts) (row : Row) :
  countRow c k row
  = let v := Js.trim (cellStr (at_ row c)) in
    if nonEmpty v then
      {| numOk := numOk k + (if isNumeric v then 1 else 0);
         dateOk := dateOk k + (if negb (isNumeric v) && isDate v then 1 else 0);
         total := total k + 1 |}
    else k.
Proof.
  unfold countRow, isNumeric, isDate. cbv zeta.
  destruct (Js.trim (cellStr (at_ row c))) as [|x v]; [reflexivity|].
  cbn [nonEmpty numOk dateOk total].
  destruct (negb (JsNum.isNaN (JsNum.Number (Js.removeCommas (x :: v)))));
    [|destruct (negb (JsNum.isNaN (Date_parse (x :: v))))];
    cbn [negb andb numOk dateOk total]; f_equal; lia.
Qed.

Lemma countColumn_from (c : nat) (sample : list Row) (k : Counts) :
  fold_left (countRow c) sample k
  = {| numOk := numOk k
                + Z.of_nat (length (List.filter isNumeric (columnValues sample c)));
       dateOk := dateOk k
                 + Z.of_nat (length (List.filter (fun v => negb (isNumeric v) && isDate v)
                                                 (columnValues sample c)));
       total := total k + Z.of_nat (length (columnValues sample c)) |}.
Proof.
  revert k. induction sample as [|row sample IH]; intros k.
  - destruct k. simpl. f_equal; lia.
  - cbn [fold_left]. rewrite IH, countRow_step. cbv zeta.
    unfold columnValues. cbn [List.map List.filter].
    destruct (nonEmpty (Js.trim (cellStr (at_ row c)))); [|reflexivity].
    cbn [numOk dateOk total List.filter].
    destruct (isNumeric (Js.trim (cellStr (at_ row c))));
      [|destruct (isDate (Js.trim (cellStr (at_ row c))))];
      cbn [negb andb length]; f_equal; lia.
Qed.

Lemma filter_shorter {A} (p : A -> bool) (l : list A) :
  (length (List.filter p l) <= length l)%nat.
Proof. induction l as [|x l IH]; simpl; [lia|]. destruct (p x); simpl; lia. Qed.

Lemma typeOfCounts_exact (values : list str) :
  (length values <= 500)%nat ->
  typeOfCounts
    {| numOk := Z.of_nat (length (List.filter isNumeric values));
       dateOk := Z.of_nat (length (List.filter (fun v => negb (isNumeric v) && isDate v)
                                               values));
       total := Z.of_nat (length values) |}
  = typeOfValues values.
Proof.
  intros Hlen. unfold typeOfCounts, typeOfValues. simpl total. simpl numOk. simpl dateOk.
  destruct (Nat.eqb_spec (length values) 0) as [-> | Hpos]; [reflexivity|].
  destruct (Z.eqb_spec (Z.of_nat (length values)) 0) as [?|_]; [lia|].
  rewrite !ratio_exact by (auto using filter_shorter; lia).
  reflexivity.
Qed.

Lemma types_lookup (f : nat -> ColType) (n : nat) (k : Z) :
  fold_left (fun (types : gmap Z ColType) c => <[Z.of_nat c := f c]> types) (seq 0 n) ∅
  !! k
  = if decide (0 <= k < Z.of_nat n) then Some (f (Z.to_nat k)) else None.
Proof.
  induction n as [|n IH].
  - simpl. rewrite lookup_empty. destruct (decide _); [lia | reflexivity].
  - rewrite seq_S, fold_left_app. simpl fold_left.
    rewrite lookup_insert. destruct (decide (Z.of_nat n = k)) as [<- | Hne].
    + clear IH. rewrite Nat2Z.id. destruct (decide _); [reflexivity | lia].
    + rewrite IH. clear IH. repeat destruct (decide _); try reflexivity; lia.
Qed.

Lemma sample_firstn (data : list Row) : Js.slice data 0 500 = firstn 500 data.
Proof. rewrite slice_nonneg by lia. reflexivity. Qed.

Lemma detectColTypes_lookup (headers : list str) (data : list Row) (k : Z) :
  detectColTypes headers data !! k
  = if decide (0 <= k < Z.of_nat (length headers))
    then Some (typeOfValues (sampleValues data (Z.to_nat k)))
    else None.
Proof.
  unfold detectColTypes. rewrite types_lookup.
  destruct (decide _); [|reflexivity]. f_equal.
  unfold countColumn. rewrite countColumn_from. simpl.
  rewrite sample_firstn. apply typeOfCounts_exact.
  unfold columnValues.
  etransitivity; [apply filter_shorter|].
  rewrite length_map, length_firstn. lia.
Qed.

End DetectSpec.

(** C5.  Every column index below [headers.length], and no other key,
    gets a type, and it is the type the rule gives to the non-empty trimmed
    values of the column in the first 500 rows: string when there are none;
    else number when the values that parse as numbers once their commas are
    removed are at least 0.8 of them; else date when the values that parse
    as dates and were not counted as numbers are at least 0.8 of them; else
    string.  Both comparisons are of exact fractions and include 0.8. *)
Theorem detectColTypes_spec `{Host} (headers : list str) (data : list Row) :
  (forall c : nat, (c < length headers)%nat ->
     detectColTypes headers data !! Z.of_nat c
     = Some (typeOfValues (sampleValues data c))) /\
  (forall k : Z, ~ (0 <= k < Z.of_nat (length headers)) ->
     detectColTypes headers data !! k = None).
Proof.
  split.
  - intros c Hc. rewrite detectColTypes_lookup.
    destruct (decide _); [|lia]. now rewrite Nat2Z.id.
  - intros k Hk. rewrite detectColTypes_lookup.
    destruct (decide _); [contradiction | reflexivity].
Qed.

Lemma detectColTypes_spec_witness :
  @detectColTypes asciiHost [lit "n"]
     (asRows [[lit "1,000"]; [lit "2,500"]; [lit "x"]; [lit "10,000"]; [lit "7"]])
  !! 0 = Some TNumber.
Proof.
  destruct (@detectColTypes_spec asciiHost [lit "n"]
              (asRows [[lit "1,000"]; [lit "2,500"]; [lit "x"]; [lit "10,000"]; [lit "7"]]))
    as [Hin _].
  etransitivity; [exact (Hin 0%nat ltac:(simpl; lia))|]. reflexivity.
Defined.

(** ** Sort engine: fields that do not parse *)

Lemma sub_negInfinity_l (y : JsNum.num) :
  match y with S754_nan | S754_infinity true => False | _ => True end ->
  JsNum.sub JsNum.negInfinity y = JsNum.negInfinity.
Proof. destruct y as [s|[|]| |s m e]; simpl; intros Hy; (reflexivity || contradiction). Qed.

Lemma sub_negInfinity_r (x : JsNum.num) :
  match x with S754_nan | S754_infinity true => False | _ => True end ->
  JsNum.sub x JsNum.negInfinity = JsNum.posInfinity.
Proof. destruct x as [s|[|]| |s m e]; simpl; intros Hx; (reflexivity || contradiction). Qed.

Section SortSpec.
Context `{Host}.
Variable type : ColType.
Variable sortCol : Z.
Hypothesis numeric : type = TNumber \/ type = TDate.

Local Abbreviation cmp := (compareRows sortCol Asc type).

Lemma cmp_keys (a b : Row) :
  cmp a b = JsNum.sub (orNegInfinity (parsed type (sortKey sortCol a)))
                      (orNegInfinity (parsed type (sortKey sortCol b))).
Proof. unfold compareRows, cmpOf, parsed. destruct numeric as [-> | ->]; reflexivity. Qed.

Lemma key_low (a : Row) :
  readsNegInfinity type sortCol a = true ->
  orNegInfinity (parsed type (sortKey sortCol a)) = JsNum.negInfinity.
Proof.
  unfold readsNegInfinity, orNegInfinity.
  destruct (parsed type (sortKey sortCol a)) as [s|[|]| |s m e]; simpl;
    intros Ha; (reflexivity || discriminate).
Qed.

Lemma key_high (a : Row) :
  readsNegInfinity type sortCol a = false ->
  orNegInfinity (parsed type (sortKey sortCol a)) = parsed type (sortKey sortCol a) /\
  match parsed type (sortKey sortCol a) with
  | S754_nan | S754_infinity true => False
  | _ => True
  end.
Proof.
  unfold readsNegInfinity, orNegInfinity.
  destruct (parsed type (sortKey sortCol a)) as [s|[|]| |s m e]; simpl;
    intros Ha; (split; [reflexivity | exact I]) || discriminate.
Qed.

Lemma unparseable_low (a : Row) :
  unparseable type sortCol a -> readsNegInfinity type sortCol a = true.
Proof.
  unfold unparseable, readsNegInfinity.
  destruct (parsed type (sortKey sortCol a)) as [s|[|]| |s m e]; simpl;
    intros Ha; (reflexivity || discriminate).
Qed.

Lemma cmp_low_low (a b : Row) :
  readsNegInfinity type sortCol a = true -> readsNegInfinity type sortCol b = true ->
  cmp a b = JsNum.NaN.
Proof. intros Ha Hb. rewrite cmp_keys, (key_low a Ha), (key_low b Hb). reflexivity. Qed.

Lemma cmp_low_high (a b : Row) :
  readsNegInfinity type sortCol a = true -> readsNegInfinity type sortCol b = false ->
  cmp a b = JsNum.negInfinity /\ cmp b a = JsNum.posInfinity.
Proof.
  intros Ha Hb. rewrite !cmp_keys, (key_low a Ha).
  destruct (key_high b Hb) as [-> Hy].
  split; [now apply sub_negInfinity_l | now apply sub_negInfinity_r].
Qed.

Lemma insert_lowFirst (x : Row) (l : list Row) :
  lowFirst type sortCol l -> lowFirst type sortCol (JsArray.insert cmp x l).
Proof.
  intros (l1 & l2 & -> & H1 & H2).
  destruct (readsNegInfinity type sortCol x) eqn:Hx.
  - (* a row read as minus infinity stays in front *)
    assert (Hfront : JsArray.insert cmp x (l1 ++ l2) = x :: l1 ++ l2).
    { destruct l1 as [|y l1].
      - destruct l2 as [|y l2]; [reflexivity|]. simpl.
        unfold JsArray.after.
        destruct (cmp_low_high x y Hx) as [-> _]; [now inversion H2|]. reflexivity.
      - simpl. unfold JsArray.after.
        rewrite (cmp_low_low x y Hx); [reflexivity | now inversion H1]. }
    rewrite Hfront. exists (x :: l1), l2. repeat split; auto.
  - (* another row goes past every row read as minus infinity *)
    induction H1 as [|y l1 Hy H1 IH].
    + exists [], (JsArray.insert cmp x l2). repeat split; auto.
      eapply Permutation_Forall; [symmetry; apply insert_permutation|].
      now constructor.
    + simpl. unfold JsArray.after.
      destruct (cmp_low_high y x Hy Hx) as [_ ->]. simpl.
      destruct IH as (m1 & m2 & -> & Hm1 & Hm2).
      exists (y :: m1), m2. repeat split; auto.
Qed.

Lemma sort_lowFirst (l : list Row) : lowFirst type sortCol (JsArray.sort cmp l).
Proof.
  induction l as [|x l IH].
  - exists [], []. repeat split; constructor.
  - simpl. now apply insert_lowFirst.
Qed.

Lemma lowFirst_order (l : list Row) (i j : nat) (a b : Row) :
  lowFirst type sortCol l -> (i < j)%nat -> l !! i = Some a -> l !! j = Some b ->
  readsNegInfinity type sortCol b = true -> readsNegInfinity type sortCol a = true.
Proof.
  intros (l1 & l2 & -> & H1 & H2) Hij Ha Hb Hlow.
  destruct (Nat.lt_ge_cases j (length l1)) as [Hj | Hj].
  - rewrite lookup_app_l in Ha by lia.
    rewrite Forall_forall in H1. apply H1.
    eapply list_elem_of_lookup_2. exact Ha.
  - rewrite lookup_app_r in Hb by lia.
    rewrite Forall_forall in H2.
    assert (Hin : b ∈ l2) by (eapply list_elem_of_lookup_2; exact Hb).
    rewrite (H2 b Hin) in Hlow. discriminate.
Qed.

End SortSpec.

(** C4, as the code has it.  In a number or a date column, sorted in
    ascending order, a field that does not parse is compared as minus
    infinity: two fields that do not parse compare as equal (the comparator
    gives NaN, which the sort takes for zero); a field that does not parse
    compares below every field that parses to a number above minus
    infinity; and in the sorted rows, whatever comes before a field that
    does not parse either does not parse or parses to minus infinity
    itself.  The sort returns on every input, with as many rows as it was
    given. *)
Theorem sortRows_unparseable `{Host} (type : ColType) (sortCol : Z)
        (colTypes : option (gmap Z ColType)) :
  0 <= sortCol -> type = TNumber \/ type = TDate ->
  typeOfCol colTypes sortCol = type ->
  (forall a b : Row,
     unparseable type sortCol a -> unparseable type sortCol b ->
     compareRows sortCol Asc type a b = JsNum.NaN /\
     JsArray.after (compareRows sortCol Asc type) a b = false /\
     JsArray.after (compareRows sortCol Asc type) b a = false) /\
  (forall a b : Row,
     unparseable type sortCol a -> parsesAbove type sortCol b ->
     compareRows sortCol Asc type a b = JsNum.negInfinity /\
     compareRows sortCol Asc type b a = JsNum.posInfinity) /\
  (forall (rows : list Row) (i j : nat) (a b : Row),
     (i < j)%nat ->
     sortRows rows sortCol Asc colTypes !! i = Some a ->
     sortRows rows sortCol Asc colTypes !! j = Some b ->
     unparseable type sortCol b ->
     ~ parsesAbove type sortCol a) /\
  (forall rows : list Row,
     length (sortRows rows sortCol Asc colTypes) = length rows).
Proof.
  intros Hcol Htype Hmap. split; [|split; [|split]].
  - intros a b Ha Hb.
    pose proof (unparseable_low type sortCol a Ha) as La.
    pose proof (unparseable_low type sortCol b Hb) as Lb.
    unfold JsArray.after.
    rewrite (cmp_low_low type sortCol Htype a b La Lb).
    rewrite (cmp_low_low type sortCol Htype b a Lb La).
    repeat split.
  - intros a b Ha Hb.
    apply (cmp_low_high type sortCol Htype a b); [|exact Hb].
    now apply unparseable_low.
  - intros rows i j a b Hij Hi Hj Hb Ha.
    unfold sortRows in Hi, Hj. rewrite Hmap in Hi, Hj.
    destruct (Z.ltb_spec sortCol 0) as [?|_]; [lia|]. simpl in Hi, Hj.
    pose proof (lowFirst_order type sortCol _ i j a b
                  (sort_lowFirst type sortCol Htype rows) Hij Hi Hj
                  (unparseable_low type sortCol b Hb)) as La.
    unfold parsesAbove in Ha. congruence.
  - intros rows. apply Permutation_length.
    unfold sortRows. destruct (_ || _); [reflexivity | apply sort_permutation].
Qed.

Lemma sortRows_unparseable_witness :
  @compareRows asciiHost 0 Asc TNumber [Some (lit "abc")] [Some (lit "3")]
  = JsNum.negInfinity /\
  @compareRows asciiHost 0 Asc TNumber [Some (lit "3")] [Some (lit "abc")]
  = JsNum.posInfinity.
Proof.
  destruct (@sortRows_unparseable asciiHost TNumber 0 (Some {[ 0 := TNumber ]}))
    as (_ & Hlow & _ & _); [lia | now left | reflexivity |].
  apply Hlow; reflexivity.
Defined.

(** C4 as stated fails against a field that parses to minus infinity: in a
    number column the field -Infinity parses, abc does not, the comparator
    gives NaN for the two, and the ascending sort leaves the field that
    parses in front of the one that does not. *)
Lemma sortRows_negInfinity_first :
  let rows := asRows [[lit "-Infinity"]; [lit "abc"]] in
  let a : Row := [Some (lit "-Infinity")] in
  let b : Row := [Some (lit "abc")] in
  @parseable asciiHost TNumber 0 a /\
  @unparseable asciiHost TNumber 0 b /\
  @compareRows asciiHost 0 Asc TNumber b a = JsNum.NaN /\
  @sortRows asciiHost rows 0 Asc (Some {[ 0 := TNumber ]}) = [a; b].
Proof. repeat split. Qed.

(** ** Export and parse *)

Lemma parseRow_fuel_S (delim : char) (fuel : nat) :
  forall t row r, parseRow fuel delim t row = Some r ->
                  parseRow (S fuel) delim t row = Some r.
Proof.
  induction fuel as [|fuel IH]; intros t row r Hr; [discriminate|].
  revert Hr. cbn [parseRow].
  destruct t as [|c t]; [auto|].
  destruct (c =? QUOTE)%N.
  - destruct (scanQuoted t []) as [field t1].
    destruct t1 as [|d t2]; [auto|].
    destruct (d =? delim)%N; [apply IH|].
    destruct (d =? CR)%N; [auto|].
    destruct (d =? LF)%N; [auto|]. apply IH.
  - destruct (scanUnquoted delim (c :: t) []) as [field t1].
    destruct t1 as [|d t2]; [auto|].
    destruct (d =? delim)%N; [apply IH | auto].
Qed.

Lemma parseRow_fuel_mono (delim : char) (fuel fuel' : nat) (t : str)
      (row : list str) r :
  (fuel <= fuel')%nat ->
  parseRow fuel delim t row = Some r -> parseRow fuel' delim t row = Some r.
Proof.
  induction 1 as [|fuel' _ IH]; [auto|].
  intros Hr. now apply parseRow_fuel_S, IH.
Qed.

Lemma parseRows_fuel_S (delim : char) (fuel : nat) :
  forall t acc r, parseRows fuel delim t acc = Some r ->
                  parseRows (S fuel) delim t acc = Some r.
Proof.
  induction fuel as [|fuel IH]; intros t acc r Hr; [discriminate|].
  revert Hr. cbn [parseRows].
  destruct t as [|c t]; [auto|].
  destruct (parseRow (S (length (c :: t))) delim (c :: t) []) as [[row t1]|]; [|auto].
  apply IH.
Qed.

Lemma parseRows_fuel_mono (delim : char) (fuel fuel' : nat) (t : str)
      (acc : list (list str)) r :
  (fuel <= fuel')%nat ->
  parseRows fuel delim t acc = Some r -> parseRows fuel' delim t acc = Some r.
Proof.
  induction 1 as [|fuel' _ IH]; [auto|].
  intros Hr. now apply parseRows_fuel_S, IH.
Qed.

(** Fields *)

Lemma includes_char (s : str) (c : char) :
  Js.includes s [c] = existsb (fun b => (c =? b)%N) s.
Proof.
  induction s as [|b s IH]; [reflexivity|].
  cbn [Js.includes Js.startsWith existsb]. rewrite IH.
  now rewrite andb_true_r.
Qed.

Lemma no_char (s : str) (c : char) :
  Js.includes s [c] = false -> Forall (fun b => b <> c) s.
Proof.
  rewrite includes_char. induction s as [|b s IH]; intros Hs; constructor.
  - cbn [existsb] in Hs. apply orb_false_elim in Hs as [Hb _].
    apply N.eqb_neq in Hb. congruence.
  - apply IH. cbn [existsb] in Hs. now apply orb_false_elim in Hs as [_ Hs].
Qed.

Lemma plain_chars (f : str) :
  needsQuotes f = false ->
  Forall (fun c => c <> COMMA /\ c <> QUOTE /\ c <> LF /\ c <> CR) f.
Proof.
  unfold needsQuotes. intros Hf.
  apply orb_false_elim in Hf as [Hf Hcr].
  apply orb_false_elim in Hf as [Hf Hlf].
  apply orb_false_elim in Hf as [Hco Hq].
  apply no_char in Hcr, Hlf, Hco, Hq.
  rewrite Forall_forall in *. intros c Hc. repeat split; auto.
Qed.

Lemma scanQuoted_escaped (f : str) :
  forall acc rest,
    match rest with d :: _ => d <> QUOTE | [] => True end ->
    scanQuoted (Js.doubleQuotes f ++ QUOTE :: rest) acc = (acc ++ f, rest).
Proof.
  induction f as [|c f IH]; intros acc rest Hrest.
  - cbn [Js.doubleQuotes app scanQuoted]. rewrite N.eqb_refl, app_nil_r.
    destruct rest as [|d rest]; [reflexivity|].
    destruct (N.eqb_spec d QUOTE); [contradiction | reflexivity].
  - cbn [Js.doubleQuotes]. destruct (N.eqb_spec c QUOTE) as [-> | Hc].
    + cbn [app scanQuoted]. rewrite !N.eqb_refl.
      rewrite IH by exact Hrest. now rewrite <- app_assoc.
    + cbn [app scanQuoted]. destruct (N.eqb_spec c QUOTE); [contradiction|].
      rewrite IH by exact Hrest. now rewrite <- app_assoc.
Qed.

Lemma scanUnquoted_plain (f : str) :
  forall acc rest,
    Forall (fun c => c <> COMMA /\ c <> QUOTE /\ c <> LF /\ c <> CR) f ->
    stopsAt COMMA rest ->
    scanUnquoted COMMA (f ++ rest) acc = (acc ++ f, rest).
Proof.
  induction f as [|c f IH]; intros acc rest Hf Hrest.
  - rewrite app_nil_r. destruct rest as [|d rest]; [reflexivity|].
    cbn [app scanUnquoted]. simpl in Hrest. now rewrite Hrest.
  - inversion Hf as [|? ? (Hc1 & _ & Hc2 & Hc3) Hf']; subst.
    cbn [app scanUnquoted].
    destruct (N.eqb_spec c COMMA); [contradiction|].
    destruct (N.eqb_spec c CR); [contradiction|].
    destruct (N.eqb_spec c LF); [contradiction|].
    cbn [orb]. rewrite IH by assumption. now rewrite <- app_assoc.
Qed.

Lemma stop_not_quote (rest : str) :
  stopsAt COMMA rest -> match rest with d :: _ => d <> QUOTE | [] => True end.
Proof.
  destruct rest as [|d rest]; [auto|]. simpl. intros Hd ->. discriminate Hd.
Qed.

Lemma parseRow_field (fuel : nat) (f rest : str) (row : list str) :
  keepsSpaces f -> stopsAt COMMA rest -> escapeCSVField (Some f) ++ rest <> [] ->
  parseRow (S fuel) COMMA (escapeCSVField (Some f) ++ rest) row
  = afterField fuel rest (row ++ [f]).
Proof.
  intros Hf Hrest Htext. unfold escapeCSVField in *. cbn [cellStr] in *.
  destruct (needsQuotes f) eqn:Hq.
  - (* the field is in quotes *)
    rewrite <- !app_assoc. cbn [app parseRow]. rewrite N.eqb_refl.
    rewrite scanQuoted_escaped by now apply stop_not_quote.
    cbn [app]. unfold afterField.
    destruct rest as [|d t2]; [reflexivity|].
    destruct (d =? COMMA)%N eqn:E1; [reflexivity|].
    destruct (d =? CR)%N eqn:E2; [reflexivity|].
    simpl in Hrest. rewrite E1, E2 in Hrest. simpl in Hrest. now rewrite Hrest.
  - (* the field is not: trimming leaves it as it is *)
    destruct Hf as [Hf | Htrim]; [congruence|].
    pose proof (plain_chars f Hq) as Hplain.
    destruct (f ++ rest) as [|c t] eqn:Ht; [contradiction|].
    cbn [parseRow].
    assert (Hc : (c =? QUOTE)%N = false).
    { apply N.eqb_neq. destruct f as [|c' f'].
      - simpl in Ht. subst rest. now apply (stop_not_quote (c :: t)).
      - injection Ht as -> _. inversion Hplain as [|? ? (_ & Hne & _) _]. exact Hne. }
    rewrite Hc, <- Ht, scanUnquoted_plain by assumption.
    cbn [app]. rewrite Htrim. unfold afterField.
    destruct rest as [|d t2]; [reflexivity|].
    destruct (d =? COMMA)%N eqn:E1; [reflexivity|].
    destruct (d =? CR)%N eqn:E2; [reflexivity|].
    simpl in Hrest. rewrite E1, E2 in Hrest. simpl in Hrest. now rewrite Hrest.
Qed.

Lemma lineOf_cons (f g : str) (fs : list str) :
  lineOf (f :: g :: fs) = escapeCSVField (Some f) ++ COMMA :: lineOf (g :: fs).
Proof. reflexivity. Qed.

Lemma escape_nonempty (f : str) : f <> [] -> escapeCSVField (Some f) <> [].
Proof.
  intros Hf. unfold escapeCSVField. cbn [cellStr].
  destruct (needsQuotes f); [discriminate | exact Hf].
Qed.

(** A line followed by a line break, or by the end of the text when its
    last field is not empty, is parsed into its fields. *)
Lemma parseRow_line (fields : list str) :
  fields <> [] -> Forall keepsSpaces fields ->
  forall (row : list str) (fuel : nat), (length fields <= fuel)%nat ->
    (forall t2, parseRow fuel COMMA (lineOf fields ++ CR :: LF :: t2) row
                = Some (row ++ fields, t2)) /\
    (last fields <> Some [] ->
     parseRow fuel COMMA (lineOf fields) row = Some (row ++ fields, [])).
Proof.
  induction fields as [|f fields IH]; intros Hne Hall row fuel Hfuel; [contradiction|].
  inversion Hall as [|? ? Hf Hfs]; subst.
  destruct fuel as [|fuel]; [simpl in Hfuel; lia|].
  destruct fields as [|g fs].
  - (* the last field of the line *)
    change (lineOf [f]) with (escapeCSVField (Some f)). split.
    + intros t2. rewrite parseRow_field; [reflexivity | exact Hf | reflexivity |].
      destruct (escapeCSVField (Some f)); discriminate.
    + intros Hlast.
      assert (Hf0 : f <> []) by (intros ->; now apply Hlast).
      rewrite <- (app_nil_r (escapeCSVField (Some f))) at 1.
      rewrite parseRow_field; [reflexivity | exact Hf | exact I |].
      rewrite app_nil_r. now apply escape_nonempty.
  - rewrite lineOf_cons.
    destruct (IH ltac:(discriminate) Hfs (row ++ [f]) fuel ltac:(simpl in *; lia))
      as [IHbreak IHend].
    split.
    + intros t2. rewrite <- app_assoc. cbn [app].
      rewrite parseRow_field; [| exact Hf | reflexivity |].
      * unfold afterField. rewrite N.eqb_refl, IHbreak. now rewrite <- app_assoc.
      * destruct (escapeCSVField (Some f)); discriminate.
    + intros Hlast.
      rewrite parseRow_field; [| exact Hf | reflexivity |].
      * unfold afterField. rewrite N.eqb_refl, IHend by exact Hlast.
        now rewrite <- app_assoc.
      * destruct (escapeCSVField (Some f)); discriminate.
Qed.

Lemma parseRow_any_fuel (fuel fuel' : nat) (t : str) (row : list str) r :
  parseRow fuel COMMA t row = Some r -> (length t < fuel')%nat ->
  parseRow fuel' COMMA t row = Some r.
Proof.
  intros Hr Hfuel.
  destruct (parseRow_total COMMA fuel' t row Hfuel) as (row' & t' & Hr' & _).
  rewrite Hr'.
  apply (parseRow_fuel_mono COMMA fuel (Nat.max fuel fuel')) in Hr; [|lia].
  apply (parseRow_fuel_mono COMMA fuel' (Nat.max fuel fuel')) in Hr'; [|lia].
  congruence.
Qed.

Lemma keepRow_plain (row : list str) : plainRow row -> keepRow row = true.
Proof.
  intros (H1 & H2 & _). destruct row as [|[|c f] [|g fs]]; try reflexivity; contradiction.
Qed.

Lemma lineOf_nonempty (row : list str) : plainRow row -> lineOf row <> [].
Proof.
  intros (H1 & H2 & _). destruct row as [|f [|g fs]]; [contradiction| |].
  - change (lineOf [f]) with (escapeCSVField (Some f)).
    apply escape_nonempty. intros ->. contradiction.
  - rewrite lineOf_cons. destruct (escapeCSVField (Some f)); discriminate.
Qed.

Lemma textOf_cons (r r' : list str) (rs : list (list str)) :
  textOf (r :: r' :: rs) = lineOf r ++ CR :: LF :: textOf (r' :: rs).
Proof. reflexivity. Qed.

Lemma parseRows_text (table : list (list str)) :
  Forall plainRow table -> lastField table <> Some [] ->
  forall acc, exists fuel, parseRows fuel COMMA (textOf table) acc = Some (acc ++ table).
Proof.
  induction table as [|r table IH]; intros Hall Hlast acc.
  - exists 1%nat. simpl. now rewrite app_nil_r.
  - inversion Hall as [|? ? Hr Hrs]; subst.
    pose proof Hr as (Hr1 & Hr2 & Hr3).
    destruct table as [|r' rs].
    + (* the last line *)
      exists 2%nat. change (textOf [r]) with (lineOf r).
      pose proof (lineOf_nonempty r Hr) as Hne.
      cbn [parseRows]. destruct (lineOf r) as [|c t] eqn:Ht; [contradiction|].
      rewrite <- Ht.
      destruct (parseRow_line r Hr1 Hr3 [] (length r) (Nat.le_refl _)) as [_ Hend].
      rewrite (parseRow_any_fuel _ (S (length (lineOf r))) _ _ _ (Hend Hlast))
        by lia.
      cbn [app]. rewrite (keepRow_plain r Hr). reflexivity.
    + rewrite textOf_cons.
      destruct (IH Hrs Hlast (acc ++ [r])) as [fuel Hfuel].
      exists (S fuel). cbn [parseRows].
      destruct (lineOf r ++ CR :: LF :: textOf (r' :: rs)) as [|c t] eqn:Ht;
        [destruct (lineOf r); discriminate|].
      rewrite <- Ht.
      destruct (parseRow_line r Hr1 Hr3 [] (length r) (Nat.le_refl _)) as [Hbreak _].
      rewrite (parseRow_any_fuel _ (S (length (lineOf r ++ CR :: LF :: textOf (r' :: rs))))
                 _ _ _ (Hbreak (textOf (r' :: rs)))) by lia.
      cbn [app]. rewrite (keepRow_plain r Hr), Hfuel.
      now rewrite <- app_assoc.
Qed.

Lemma lookup_map {A B} (f : A -> B) (l : list A) (i : nat) :
  List.map f l !! i = f <$> l !! i.
Proof. exact (list_lookup_fmap f l i). Qed.

Lemma export_fields (row : list str) :
  List.map (fun c => escapeCSVField (at_ (List.map Some row) c)) (seq 0 (length row))
  = List.map (fun f => escapeCSVField (Some f)) row.
Proof.
  apply list_eq. intros i. unfold at_. rewrite !lookup_map.
  destruct (row !! i) as [f|] eqn:Hi.
  - rewrite lookup_seq_lt by (eapply lookup_lt_Some; exact Hi).
    cbn [fmap option_fmap option_map Nat.add]. unfold Row, cell.
    now rewrite lookup_map, Hi.
  - rewrite lookup_seq_ge by (now apply lookup_ge_None). reflexivity.
Qed.

Lemma exportText_textOf (hs : list str) (body : list (list str)) :
  Forall (fun row => length row = length hs) body ->
  exportText hs (asRows body) = BOM :: textOf (hs :: body).
Proof.
  intros Hlen. unfold exportText, exportLines, textOf, asRows. do 2 f_equal.
  cbn [List.map]. f_equal. rewrite List.map_map.
  induction Hlen as [|row body Hrow _ IH]; [reflexivity|].
  cbn [List.map]. rewrite IH. f_equal.
  unfold lineOf. f_equal. rewrite <- Hrow. apply export_fields.
Qed.

Lemma imap_unchanged (hs : list str) :
  Forall (fun h => h <> []) hs ->
  forall g : nat -> str -> str,
    (forall i h, h <> [] -> g i h = h) -> imap g hs = hs.
Proof.
  induction 1 as [|h hs Hh _ IH]; intros g Hg; [reflexivity|].
  cbn [imap]. rewrite (Hg _ _ Hh). f_equal.
  apply IH. intros i h' Hh'. now apply Hg.
Qed.

Lemma buildData_table (hs : list str) (body : list (list str)) :
  Forall (fun h => h <> []) hs ->
  buildData (hs :: body) = {| headers := hs; data := body |}.
Proof.
  intros Hall. unfold buildData. f_equal.
  apply imap_unchanged; [exact Hall|].
  intros i [|c h] Hh; [contradiction | reflexivity].
Qed.

Lemma last_nonempty (hs : list str) :
  Forall (fun h => h <> []) hs -> last hs <> Some [].
Proof.
  intros Hall Hlast. rewrite Forall_forall in Hall.
  apply (Hall []); [|reflexivity].
  rewrite last_lookup in Hlast. eapply list_elem_of_lookup_2. exact Hlast.
Qed.

(** C1, as the code has it.  Take headers, at least one and none empty,
    and rows with one field per header, none of them a single empty field,
    the last field of the last row not empty.  Let every field, header or
    value, either hold a comma, a double quote, a line feed or a carriage
    return (so that it is exported in quotes) or be free of white space at
    its two ends, and let the comma be the delimiter detected on the
    exported text.  Then parsing the exported text returns the header row
    followed by the rows, and [buildData] rebuilds the headers and the
    rows as they were, with the commas, quotes and line breaks in them. *)
Theorem export_roundtrip (hs : list str) (body : list (list str)) :
  hs <> [] ->
  Forall (fun h => h <> []) hs ->
  Forall keepsSpaces hs ->
  Forall (fun row => length row = length hs /\ row <> [[]] /\ Forall keepsSpaces row)
         body ->
  lastField body <> Some [] ->
  detectDelim (stripBOM (exportText hs (asRows body))) = COMMA ->
  exists r, parseCSV (exportText hs (asRows body)) = Some r /\
            delim r = COMMA /\
            rows r = hs :: body /\
            buildData (rows r) = {| headers := hs; data := body |}.
Proof.
  intros Hhs Hnames Hhfields Hbody Hlast Hdelim.
  assert (Hlen : Forall (fun row => length row = length hs) body)
    by (eapply Forall_impl; [exact Hbody|]; now intros row (? & _)).
  assert (Htable : Forall plainRow (hs :: body)).
  { constructor.
    - repeat split; [exact Hhs | | exact Hhfields].
      intros ->. inversion Hnames; subst. congruence.
    - eapply Forall_impl; [exact Hbody|]. intros row (Hl & Hne & Hf).
      repeat split; [|exact Hne | exact Hf].
      intros ->. destruct hs; [contradiction | discriminate]. }
  assert (Hend : lastField (hs :: body) <> Some []).
  { destruct body as [|row body]; [|exact Hlast].
    now apply last_nonempty. }
  destruct (parseRows_text (hs :: body) Htable Hend []) as [fuel Hfuel].
  cbn [app] in Hfuel.
  rewrite exportText_textOf in * by exact Hlen.
  unfold parseCSV. cbn [stripBOM] in *.
  change (BOM =? BOM)%N with true in *. cbv iota in *. rewrite Hdelim.
  set (text := textOf (hs :: body)) in *.
  destruct (parseRows_total COMMA (S (length text)) text []) as [rs Hrs]; [lia|].
  apply (parseRows_fuel_mono COMMA _ (Nat.max fuel (S (length text)))) in Hfuel; [|lia].
  pose proof Hrs as Hrs'.
  apply (parseRows_fuel_mono COMMA _ (Nat.max fuel (S (length text)))) in Hrs'; [|lia].
  assert (rs = hs :: body) as -> by congruence.
  rewrite Hrs. eexists. split; [reflexivity|]. cbn [delim rows].
  repeat split. now apply buildData_table.
Qed.

Lemma export_roundtrip_witness :
  exists r, parseCSV (exportText exampleHeaders (asRows exampleBody)) = Some r /\
            delim r = COMMA /\
            rows r = exampleHeaders :: exampleBody /\
            buildData (rows r) = {| headers := exampleHeaders; data := exampleBody |}.
Proof.
  apply (export_roundtrip exampleHeaders exampleBody).
  - discriminate.
  - repeat constructor; discriminate.
  - repeat constructor; right; reflexivity.
  - repeat constructor; try discriminate; (left; reflexivity) || (right; reflexivity).
  - vm_compute. discriminate.
  - vm_compute. reflexivity.
Defined.

(** C1 as stated fails on a value with a space at one end: the export
    does not put it in quotes and the parser trims a field that is not in
    quotes, so the value [ x] comes back as [x]. *)
Lemma export_roundtrip_trims :
  exists r, parseCSV (exportText [lit "a"] (asRows [[lit " x"]])) = Some r /\
            data (buildData (rows r)) = [[lit "x"]] /\
            data (buildData (rows r)) <> [[lit " x"]].
Proof.
  eexists. split; [vm_compute; reflexivity|].
  split; [reflexivity | discriminate].
Qed.

(** ** The scenarios of the specification and of the tests *)

Example parse_basic :
  parseCSV (lit "a,b,c" ++ [LF] ++ lit "1,2,3")
  = Some {| rows := [[lit "a"; lit "b"; lit "c"]; [lit "1"; lit "2"; lit "3"]];
            delim := COMMA |}.
Proof. reflexivity. Qed.

Example parse_semicolon_bom :
  parseCSV (BOM :: lit "id;name" ++ [CR; LF] ++ lit "1;Alice" ++ [CR; LF] ++ lit "2;Bob")
  = Some {| rows := [[lit "id"; lit "name"]; [lit "1"; lit "Alice"]; [lit "2"; lit "Bob"]];
            delim := SEMI |}.
Proof. reflexivity. Qed.

Example parse_trims_unquoted :
  parseCSV (lit "  a  ,  b  " ++ [LF] ++ lit "  1  ,  2  ")
  = Some {| rows := [[lit "a"; lit "b"]; [lit "1"; lit "2"]]; delim := COMMA |}.
Proof. reflexivity. Qed.

Example parse_trailing_newline :
  parseCSV (lit "a,b" ++ [LF] ++ lit "1,2" ++ [LF])
  = Some {| rows := [[lit "a"; lit "b"]; [lit "1"; lit "2"]]; delim := COMMA |}.
Proof. reflexivity. Qed.

Example build_names_empty_header :
  buildData [[lit "a"; []; lit "c"]; [lit "1"; lit "2"; lit "3"]]
  = {| headers := [lit "a"; lit "Column 2"; lit "c"];
       data := [[lit "1"; lit "2"; lit "3"]] |}.
Proof. reflexivity. Qed.

Example detect_thousands :
  @detectColTypes asciiHost [lit "n"]
     (asRows [[lit "1,000"]; [lit "2,500"]; [lit "10,000"]]) !! 0
  = Some TNumber.
Proof. reflexivity. Qed.

Example escape_quotes :
  escapeCSVField (Some (lit "he said " ++ [QUOTE] ++ lit "hi" ++ [QUOTE]))
  = [QUOTE] ++ lit "he said " ++ [QUOTE; QUOTE] ++ lit "hi" ++ [QUOTE; QUOTE; QUOTE].
Proof. reflexivity. Qed.

Example pageList_middle :
  buildPageList 10 20 = [Page 1; Ellipsis; Page 9; Page 10; Page 11; Ellipsis; Page 20].
Proof. reflexivity. Qed.

Example totalPages_51_25 : calcTotalPages 51 25 = 3.
Proof. reflexivity. Qed.

Example sort_empty_first :
  @sortRows asciiHost (asRows [[lit "5"]; []; [lit "3"]; [lit ""]]) 0 Asc
            (Some {[ 0 := TNumber ]})
  = asRows [[]; [lit ""]; [lit "3"]; [lit "5"]].
Proof. reflexivity. Qed.

Example parseFloat_tenth :
  JsNum.parseFloat (lit "0.1") = S754_finite false 7205759403792794 (-56).
Proof. reflexivity. Qed.

(** A row that ends with an empty field at the very end of the text comes
    back without it; followed by a line break it comes back whole. *)
Example parse_trailing_empty_field :
  parseCSV (lit "a,b" ++ [CR; LF] ++ lit "x,")
  = Some {| rows := [[lit "a"; lit "b"]; [lit "x"]]; delim := COMMA |} /\
  parseCSV (lit "a,b" ++ [CR; LF] ++ lit "x," ++ [CR; LF])
  = Some {| rows := [[lit "a"; lit "b"]; [lit "x"; []]]; delim := COMMA |}.
Proof. split; reflexivity. Qed.

(** ** Export and parse: when the comma is detected *)

Lemma occurrences_app (d : char) (x y : str) :
  occurrences d (x ++ y) = occurrences d x + occurrences d y.
Proof. unfold occurrences. rewrite List.filter_app, length_app. apply Nat2Z.inj_add. Qed.

Lemma occurrences_nonneg (d : char) (x : str) : 0 <= occurrences d x.
Proof. unfold occurrences. lia. Qed.

Lemma occurrences_doubleQuotes (d : char) (f : str) :
  d <> QUOTE -> occurrences d (Js.doubleQuotes f) = occurrences d f.
Proof.
  intros Hd. induction f as [|c f IH]; [reflexivity|].
  cbn [Js.doubleQuotes]. destruct (N.eqb_spec c QUOTE) as [-> | Hc].
  - change (QUOTE :: QUOTE :: ?l) with ([QUOTE; QUOTE] ++ l).
    change (QUOTE :: f) with ([QUOTE] ++ f).
    rewrite !occurrences_app, IH. unfold occurrences. cbn [List.filter].
    destruct (N.eqb_spec QUOTE d); [congruence | reflexivity].
  - change (c :: ?l) with ([c] ++ l). now rewrite !occurrences_app, IH.
Qed.

Lemma occurrences_escape (d : char) (f : str) :
  d <> QUOTE -> occurrences d (escapeCSVField (Some f)) = occurrences d f.
Proof.
  intros Hd. unfold escapeCSVField. cbn [cellStr].
  destruct (needsQuotes f); [|reflexivity].
  rewrite !occurrences_app, occurrences_doubleQuotes by exact Hd.
  unfold occurrences at 1 3. cbn [List.filter].
  destruct (N.eqb_spec QUOTE d); [congruence | simpl; lia].
Qed.

Lemma occurrences_lineOf (d : char) (fields : list str) :
  d <> QUOTE -> d <> COMMA ->
  Forall (fun f => occurrences d f = 0) fields ->
  occurrences d (lineOf fields) = 0.
Proof.
  intros Hq Hc Hall. induction Hall as [|f fields Hf _ IH]; [reflexivity|].
  destruct fields as [|g fs].
  - change (lineOf [f]) with (escapeCSVField (Some f)).
    now rewrite occurrences_escape.
  - rewrite lineOf_cons. change (COMMA :: ?l) with ([COMMA] ++ l).
    rewrite !occurrences_app, occurrences_escape, Hf, IH by exact Hq.
    unfold occurrences. cbn [List.filter].
    destruct (N.eqb_spec COMMA d); [congruence | reflexivity].
Qed.

Lemma firstLine_within (a b : str) :
  exists rest, a = Js.firstLine (a ++ CR :: LF :: b) ++ rest.
Proof.
  induction a as [|c a [rest IH]].
  - exists []. reflexivity.
  - cbn [app Js.firstLine].
    destruct (c =? LF)%N; [now exists (c :: a)|].
    destruct ((c =? CR)%N && _); [now exists (c :: a)|].
    exists rest. cbn [app]. now rewrite <- IH.
Qed.

Lemma firstLine_textOf (hs : list str) (body : list (list str)) :
  exists rest, lineOf hs = Js.firstLine (textOf (hs :: body)) ++ rest.
Proof.
  destruct body as [|row body].
  - change (textOf [hs]) with (lineOf hs).
    destruct (firstLine_break (lineOf hs)) as (_ & rest & Heq & _). now exists rest.
  - rewrite textOf_cons. apply firstLine_within.
Qed.

(** The comma is the delimiter detected on the export of a table whose
    header names hold no semicolon, no tab and no pipe. *)
Lemma export_delimiter_comma (hs : list str) (body : list (list str)) :
  Forall (fun row => length row = length hs) body ->
  Forall (fun h => occurrences SEMI h = 0 /\ occurrences TAB h = 0 /\
                   occurrences PIPE h = 0) hs ->
  detectDelim (stripBOM (exportText hs (asRows body))) = COMMA.
Proof.
  intros Hlen Hhs. rewrite exportText_textOf by exact Hlen.
  cbn [stripBOM]. change (BOM =? BOM)%N with true. cbv iota.
  set (text := textOf (hs :: body)).
  destruct (firstLine_textOf hs body) as [rest Hline]. fold text in Hline.
  assert (Hnone : forall d, d = SEMI \/ d = TAB \/ d = PIPE ->
                            occurrences d (Js.firstLine text) = 0).
  { intros d Hd.
    assert (Hd0 : occurrences d (lineOf hs) = 0).
    { apply occurrences_lineOf.
      - destruct Hd as [-> | [-> | ->]]; discriminate.
      - destruct Hd as [-> | [-> | ->]]; discriminate.
      - eapply Forall_impl; [exact Hhs|]. intros h (H1 & H2 & H3).
        destruct Hd as [-> | [-> | ->]]; assumption. }
    rewrite Hline, occurrences_app in Hd0.
    pose proof (occurrences_nonneg d (Js.firstLine text)).
    pose proof (occurrences_nonneg d rest). lia. }
  clearbody text.
  destruct (detectDelim_first_max text) as (j & Hj & _ & Hfirst).
  destruct j as [|j]; [now injection Hj|].
  specialize (Hfirst O COMMA eq_refl (Nat.lt_0_succ j)).
  pose proof (occurrences_nonneg COMMA (Js.firstLine text)) as Hcomma.
  rewrite (Hnone (detectDelim text)) in Hfirst.
  - lia.
  - generalize dependent (detectDelim text). intros d Hj _.
    destruct j as [|[|[|j]]]; cbn in Hj; try discriminate Hj;
      injection Hj as <-; auto.
Qed.

(* ================================================================== *)
(** * Further properties of the code *)
(* ================================================================== *)

(** ** Parser: the rows and the fields it returns *)

Lemma keepRow_true (row : list str) :
  keepRow row = true -> row <> [] /\ row <> [[]].
Proof.
  destruct row as [|[|c f] [|g fs]]; simpl; intros Hk;
    try discriminate Hk; split; discriminate.
Qed.

Lemma parseRows_Forall (P : list str -> Prop) (Q : str -> Prop) (delim : char)
      (Prow : forall fuel t row t',
          Q t -> parseRow fuel delim t [] = Some (row, t') ->
          Q t' /\ (keepRow row = true -> P row))
      (fuel : nat) :
  forall t acc rs,
    Q t -> Forall P acc -> parseRows fuel delim t acc = Some rs -> Forall P rs.
Proof.
  induction fuel as [|fuel IH]; intros t acc rs Ht Hacc Hrs; [discriminate|].
  cbn [parseRows] in Hrs. destruct t as [|c t]; [now injection Hrs as <-|].
  destruct (parseRow (S (length (c :: t))) delim (c :: t) []) as [[row t1]|] eqn:Hrow;
    [|discriminate].
  destruct (Prow _ _ _ _ Ht Hrow) as [Ht1 Hkept].
  eapply IH; [exact Ht1 | | exact Hrs].
  destruct (keepRow row) eqn:Hk; [|exact Hacc].
  apply Forall_app. split; [exact Hacc|]. constructor; [|constructor].
  now apply Hkept.
Qed.

Lemma parseCSV_kept (text : str) (r : ParseResult) :
  parseCSV text = Some r ->
  Forall (fun row => row <> [] /\ row <> [[]]) (rows r).
Proof.
  intros Hrs. unfold parseCSV in Hrs.
  destruct (parseRows _ _ _ _) as [rs'|] eqn:Hparse; [|discriminate].
  injection Hrs as <-. cbn [rows].
  eapply (parseRows_Forall _ (fun _ => True)); [| exact I | constructor | exact Hparse].
  intros fuel t row t' _ _. split; [exact I|]. apply keepRow_true.
Qed.

(** X1.  The parser returns on every text, and no row it returns is empty
    or a single empty field: blank lines leave no trace in the result. *)
Theorem parseCSV_rows_kept (text : str) :
  exists r, parseCSV text = Some r /\
            Forall (fun row => row <> [] /\ row <> [[]]) (rows r).
Proof.
  destruct (parseCSV_total text) as [rs Hrs]. eexists.
  split; [exact Hrs | now apply (parseCSV_kept text)].
Qed.

Lemma trimStart_fixed (s : str) :
  match s with c :: _ => Js.isWhiteSpace c = false | [] => True end ->
  Js.trimStart s = s.
Proof. destruct s as [|c s]; [reflexivity|]. cbn [Js.trimStart]. now intros ->. Qed.

Lemma trimStart_head (s : str) :
  match Js.trimStart s with c :: _ => Js.isWhiteSpace c = false | [] => True end.
Proof.
  induction s as [|c s IH]; [exact I|]. cbn [Js.trimStart].
  destruct (Js.isWhiteSpace c) eqn:Hc; [exact IH | exact Hc].
Qed.

Lemma trimStart_snoc (s : str) (c : char) :
  Js.isWhiteSpace c = false -> Js.trimStart (s ++ [c]) = Js.trimStart s ++ [c].
Proof.
  intros Hc. induction s as [|b s IH]; cbn [app Js.trimStart].
  - now rewrite Hc.
  - destruct (Js.isWhiteSpace b); [exact IH | reflexivity].
Qed.

Lemma trim_idempotent (s : str) : Js.trim (Js.trim s) = Js.trim s.
Proof.
  unfold Js.trim, Js.trimEnd.
  pose proof (trimStart_head s) as Hhead.
  destruct (Js.trimStart s) as [|c a]; [reflexivity|].
  cbn [rev]. rewrite (trimStart_snoc _ _ Hhead), rev_app_distr. cbn [rev app].
  rewrite (trimStart_fixed (c :: _)) by exact Hhead.
  cbn [rev]. rewrite rev_involutive.
  rewrite (trimStart_fixed (Js.trimStart (rev a) ++ [c])).
  - now rewrite rev_app_distr.
  - pose proof (trimStart_head (rev a)) as Hb.
    destruct (Js.trimStart (rev a)); [exact Hhead | exact Hb].
Qed.

Lemma trimStart_Forall (P : char -> Prop) (s : str) :
  Forall P s -> Forall P (Js.trimStart s).
Proof.
  induction 1 as [|c s Hc Hs IH]; [constructor|]. cbn [Js.trimStart].
  destruct (Js.isWhiteSpace c); [exact IH | now constructor].
Qed.

Lemma trim_Forall (P : char -> Prop) (s : str) :
  Forall P s -> Forall P (Js.trim s).
Proof.
  intros Hs. unfold Js.trim, Js.trimEnd.
  apply Forall_rev, trimStart_Forall, Forall_rev, trimStart_Forall, Hs.
Qed.

Lemma scanUnquoted_read (delim : char) (t : str) :
  forall field,
  exists read,
    scanUnquoted delim t field
    = (field ++ read, snd (scanUnquoted delim t field)) /\
    t = read ++ snd (scanUnquoted delim t field) /\
    Forall (fun c => c <> delim /\ c <> CR /\ c <> LF) read.
Proof.
  induction t as [|c t IH]; intros field.
  - exists []. cbn. rewrite app_nil_r. repeat split. constructor.
  - cbn [scanUnquoted].
    destruct (N.eqb_spec c delim) as [->|H1]; cbn [orb].
    { exists []. cbn. rewrite app_nil_r. repeat split. constructor. }
    destruct (N.eqb_spec c CR) as [->|H2]; cbn [orb].
    { exists []. cbn. rewrite app_nil_r. repeat split. constructor. }
    destruct (N.eqb_spec c LF) as [->|H3].
    { exists []. cbn. rewrite app_nil_r. repeat split. constructor. }
    destruct (IH (field ++ [c])) as (read & Heq & Ht & Hread).
    exists (c :: read). rewrite Heq at 1. rewrite <- app_assoc. cbn [app fst snd].
    repeat split; [congruence | now constructor].
Qed.

Lemma skipLF_Forall (P : char -> Prop) (t : str) :
  Forall P t -> Forall P (skipLF t).
Proof.
  destruct 1 as [|c t Hc Ht]; [constructor|]. cbn [skipLF].
  destruct (c =? LF)%N; [exact Ht | now constructor].
Qed.

Lemma parseRow_unquoted (delim : char) (fuel : nat) :
  forall t row row' t',
    Forall (fun c => c <> QUOTE) t ->
    parseRow fuel delim t row = Some (row', t') ->
    Forall (fun c => c <> QUOTE) t' /\
    exists new, row' = row ++ new /\ Forall (bareField delim) new.
Proof.
  induction fuel as [|fuel IH]; intros t row row' t' Ht Hrow; [discriminate|].
  destruct t as [|c t].
  { injection Hrow as <- <-. split; [constructor|].
    exists []. rewrite app_nil_r. split; [reflexivity | constructor]. }
  cbn [parseRow] in Hrow.
  assert (Hc : (c =? QUOTE)%N = false)
    by (apply N.eqb_neq; now inversion Ht).
  rewrite Hc in Hrow.
  destruct (scanUnquoted_read delim (c :: t) []) as (read & Heq & Htext & Hread).
  rewrite Heq in Hrow. cbn [app] in Hrow.
  set (t1 := snd (scanUnquoted delim (c :: t) [])) in *. clearbody t1.
  assert (Ht1 : Forall (fun c => c <> QUOTE) t1)
    by (rewrite Htext in Ht; now apply Forall_app in Ht).
  assert (Hfield : bareField delim (Js.trim read))
    by (split; [apply trim_idempotent | now apply trim_Forall]).
  assert (Hone : exists new, row ++ [Js.trim read] = row ++ new /\
                             Forall (bareField delim) new)
    by (exists [Js.trim read]; split; [reflexivity | now constructor]).
  destruct t1 as [|d t2]; [injection Hrow as <- <-; now split|].
  assert (Ht2 : Forall (fun c => c <> QUOTE) t2) by now inversion Ht1.
  destruct (d =? delim)%N.
  { destruct (IH _ _ _ _ Ht2 Hrow) as (Hq & new & -> & Hnew).
    split; [exact Hq|]. exists (Js.trim read :: new).
    rewrite <- app_assoc. split; [reflexivity | now constructor]. }
  destruct (d =? CR)%N.
  { injection Hrow as <- <-. split; [now apply skipLF_Forall | exact Hone]. }
  destruct (d =? LF)%N; injection Hrow as <- <-; now split.
Qed.

(** X2.  In a text without a double quote every field the parser returns
    is trimmed and holds neither the delimiter nor a line break. *)
Theorem parseCSV_unquoted_fields (text : str) :
  Forall (fun c => c <> QUOTE) text ->
  exists r, parseCSV text = Some r /\
            Forall (Forall (bareField (delim r))) (rows r).
Proof.
  intros Htext.
  destruct (parseCSV_total text) as [rs Hrs]. eexists. split; [exact Hrs|].
  cbn [rows delim]. unfold parseCSV in Hrs.
  destruct (parseRows _ _ _ _) as [rs'|] eqn:Hparse; [|discriminate].
  injection Hrs as <-.
  eapply (parseRows_Forall _ (Forall (fun c => c <> QUOTE)));
    [| | constructor | exact Hparse].
  - intros fuel t row t' Ht Hrow.
    destruct (parseRow_unquoted _ _ _ _ _ _ Ht Hrow) as (Hq & new & -> & Hnew).
    split; [exact Hq | intros _; exact Hnew].
  - destruct Htext as [|c t Hc Ht]; [constructor|]. cbn [stripBOM].
    destruct (c =? BOM)%N; [exact Ht | now constructor].
Qed.

Lemma parseCSV_unquoted_fields_witness :
  exists r, parseCSV (lit " a ; b ;c" ++ [LF] ++ lit "1; 2;3") = Some r /\
            Forall (Forall (bareField (delim r))) (rows r).
Proof.
  apply parseCSV_unquoted_fields.
  repeat (constructor; [discriminate|]). constructor.
Defined.

(** ** Table builder *)

Lemma headerName_nonempty (i : nat) (h : str) : headerName i h <> [].
Proof. destruct h; discriminate. Qed.

Lemma headerName_kept (i : nat) (h : str) : h <> [] -> headerName i h = h.
Proof. destruct h; [contradiction | reflexivity]. Qed.

(** X3.  From a header row and a body, [buildData] makes as many headers
    as the row has fields and no header is empty: a name that is not empty
    is kept, an empty one at position [i] becomes Column i+1; the body is
    the data, untouched. *)
Theorem buildData_shape (first : list str) (rest : list (list str)) :
  length (headers (buildData (first :: rest))) = length first /\
  Forall (fun h => h <> []) (headers (buildData (first :: rest))) /\
  (forall (i : nat) (h : str), first !! i = Some h ->
     headers (buildData (first :: rest)) !! i
     = Some (if nonEmpty h then h else lit "Column " ++ decimal (i + 1))) /\
  data (buildData (first :: rest)) = rest.
Proof.
  cbn [buildData headers data]. repeat split.
  - apply length_imap.
  - apply Forall_forall. intros h Hh.
    apply list_elem_of_lookup in Hh as [i Hi].
    rewrite list_lookup_imap in Hi.
    destruct (first !! i) as [h0|]; [|discriminate]. injection Hi as <-.
    apply headerName_nonempty.
  - intros i h Hi. rewrite list_lookup_imap, Hi. cbn. now destruct h.
Qed.

(** X4.  Building a table again from its own headers and data gives the
    same table: the names [buildData] makes are never renamed. *)
Theorem buildData_rebuild (rows : list (list str)) :
  buildData (headers (buildData rows) :: data (buildData rows)) = buildData rows.
Proof.
  destruct rows as [|first rest]; [reflexivity|].
  cbn [buildData headers data]. f_equal.
  apply imap_unchanged.
  - apply Forall_forall. intros h Hh.
    apply list_elem_of_lookup in Hh as [i Hi].
    rewrite list_lookup_imap in Hi.
    destruct (first !! i) as [h0|]; [|discriminate]. injection Hi as <-.
    apply headerName_nonempty.
  - intros i h. apply headerName_kept.
Qed.

(** ** Exporter *)

Lemma doubleQuotes_injective (a : str) :
  forall b, Js.doubleQuotes a = Js.doubleQuotes b -> a = b.
Proof.
  induction a as [|c a IH]; intros [|d b] Hab; cbn [Js.doubleQuotes] in Hab.
  - reflexivity.
  - destruct (d =? QUOTE)%N; discriminate.
  - destruct (c =? QUOTE)%N; discriminate.
  - destruct (N.eqb_spec c QUOTE) as [-> | Hc], (N.eqb_spec d QUOTE) as [-> | Hd].
    + injection Hab as Hab. now rewrite (IH b Hab).
    + injection Hab as Hd' _. congruence.
    + injection Hab as Hc' _. congruence.
    + injection Hab as -> Hab. now rewrite (IH b Hab).
Qed.

Lemma quoted_not_plain (a b : str) :
  needsQuotes b = false -> [QUOTE] ++ Js.doubleQuotes a ++ [QUOTE] <> b.
Proof.
  intros Hb Heq. apply plain_chars in Hb. rewrite <- Heq in Hb.
  inversion Hb as [|? ? (_ & Hq & _) _]. congruence.
Qed.

(** X5.  Two different strings are never escaped to the same field. *)
Theorem escapeCSVField_injective (a b : str) :
  a <> b -> escapeCSVField (Some a) <> escapeCSVField (Some b).
Proof.
  intros Hab Heq. apply Hab. unfold escapeCSVField in Heq. cbn [cellStr] in Heq.
  destruct (needsQuotes a) eqn:Ha, (needsQuotes b) eqn:Hb.
  - cbn [app] in Heq. injection Heq as Heq.
    apply app_inj_tail in Heq as [Heq _]. now apply doubleQuotes_injective.
  - now apply quoted_not_plain in Heq.
  - symmetry in Heq. now apply quoted_not_plain in Heq.
  - exact Heq.
Qed.

Lemma escapeCSVField_injective_witness :
  escapeCSVField (Some (lit "a,b")) <> escapeCSVField (Some (lit "a" ++ [QUOTE] ++ lit ",b")).
Proof. apply escapeCSVField_injective. discriminate. Defined.

(** ** Filter engine: what a filter does to the rows *)

Lemma filter_all {A} (p : A -> bool) (l : list A) :
  (forall x, In x l -> p x = true) -> List.filter p l = l.
Proof.
  induction l as [|x l IH]; intros Hall; [reflexivity|].
  cbn [List.filter]. rewrite (Hall x) by now left.
  f_equal. apply IH. intros y Hy. apply Hall. now right.
Qed.

Lemma filterRows_unfiltered `{Host} (data : list Row) (hs : option (list str))
      (globalSearch : cell) (colFilters : option (list cell)) :
  toLowerCase [] = [] ->
  cellStr globalSearch = [] ->
  Forall (fun f => cellStr f = []) (default [] colFilters) ->
  filterRows data hs globalSearch colFilters = data.
Proof.
  intros Hlow Hsearch Hcols. unfold filterRows. apply filter_all.
  intros row _. unfold keepsRow. rewrite Hsearch, Hlow. cbn [nonEmpty andb].
  apply forallb_forall. intros c _. rewrite lookup_map.
  destruct (default [] colFilters !! c) as [f|] eqn:Hf; [|reflexivity].
  cbn. rewrite Forall_forall in Hcols.
  rewrite (Hcols f) by (eapply list_elem_of_lookup_2; exact Hf).
  now rewrite Hlow.
Qed.

(** X6.  With an empty (or absent) search and column filters that are all
    empty (or absent), [filterRows] returns every row, whatever the rows
    hold; lower-casing is the host's and keeps the empty string empty. *)
Theorem filterRows_no_filter `{Host} (data : list Row) (hs : option (list str))
        (globalSearch : cell) (colFilters : option (list cell)) :
  toLowerCase [] = [] ->
  cellStr globalSearch = [] ->
  Forall (fun f => cellStr f = []) (default [] colFilters) ->
  filterRows data hs globalSearch colFilters = data.
Proof. apply filterRows_unfiltered. Qed.

Lemma filterRows_no_filter_witness :
  @filterRows asciiHost (asRows [[lit "Alice"; lit "50"]; []; [lit "Bob"]])
              (Some [lit "name"; lit "score"]) None (Some [Some []; None])
  = asRows [[lit "Alice"; lit "50"]; []; [lit "Bob"]].
Proof.
  apply (@filterRows_no_filter asciiHost); [reflexivity | reflexivity |].
  repeat constructor.
Defined.

Lemma filter_sublist {A} (p : A -> bool) (l : list A) : sublist (List.filter p l) l.
Proof.
  induction l as [|x l IH]; [constructor|].
  cbn [List.filter]. destruct (p x); now constructor.
Qed.

(** X7.  The rows [filterRows] returns are rows of the data, in the order
    of the data: it adds no row, copies none and moves none. *)
Theorem filterRows_sublist `{Host} (data : list Row) (hs : option (list str))
        (globalSearch : cell) (colFilters : option (list cell)) :
  sublist (filterRows data hs globalSearch colFilters) data.
Proof. unfold filterRows. apply filter_sublist. Qed.

Lemma filter_filter_and {A} (p q : A -> bool) (l : list A) :
  List.filter p (List.filter q l) = List.filter (fun x => q x && p x) l.
Proof.
  induction l as [|x l IH]; [reflexivity|]. cbn [List.filter].
  destruct (q x) eqn:Hq; cbn [andb List.filter]; [destruct (p x)|]; now rewrite IH.
Qed.

Lemma forallb_all {A} (p : A -> bool) (l : list A) :
  (forall x, p x = true) -> forallb p l = true.
Proof. intros Hp. apply forallb_forall. auto. Qed.

Lemma keepsRow_no_columns `{Host} (gLower : str) (colCount : nat) (row : Row) :
  keepsRow gLower [] colCount row
  = negb (nonEmpty gLower &&
          negb (existsb (fun x => Js.includes (toLowerCase (cellStr x)) gLower) row)).
Proof.
  unfold keepsRow. rewrite forallb_all by (intros c; reflexivity).
  now destruct (nonEmpty _ && negb _).
Qed.

(** X8.  The global search and the column filters are two filters applied
    together: filtering with both gives the rows that filtering with the
    column filters alone and then with the search alone gives (lower-casing
    keeps the empty string empty). *)
Theorem filterRows_search_after_columns `{Host} (data : list Row)
        (hs : option (list str)) (globalSearch : cell)
        (colFilters : option (list cell)) :
  toLowerCase [] = [] ->
  filterRows data hs globalSearch colFilters
  = filterRows (filterRows data hs None colFilters) hs globalSearch None.
Proof.
  intros Hlow. unfold filterRows. rewrite filter_filter_and.
  apply filter_ext. intros row.
  cbn [cellStr default List.map]. rewrite Hlow, keepsRow_no_columns.
  unfold keepsRow. cbn [nonEmpty andb].
  destruct (nonEmpty _ && negb _); [now rewrite andb_false_r | now rewrite andb_true_r].
Qed.

Lemma filterRows_search_after_columns_witness :
  @filterRows asciiHost
     (asRows [[lit "Alice"; lit "85"]; [lit "Bob"; lit "72"]; [lit "Albert"; lit "68"]])
     (Some [lit "name"; lit "score"]) (Some (lit "8")) (Some [Some (lit "al")])
  = @filterRows asciiHost
      (@filterRows asciiHost
         (asRows [[lit "Alice"; lit "85"]; [lit "Bob"; lit "72"]; [lit "Albert"; lit "68"]])
         (Some [lit "name"; lit "score"]) None (Some [Some (lit "al")]))
      (Some [lit "name"; lit "score"]) (Some (lit "8")) None.
Proof. apply (@filterRows_search_after_columns asciiHost). reflexivity. Defined.

(** ** Sort engine: ties and order *)

Lemma sort_ties {A} (cmp : A -> A -> JsNum.num) (l : list A) :
  (forall x y, In x l -> In y l -> JsArray.after cmp x y = false) ->
  JsArray.sort cmp l = l.
Proof.
  induction l as [|x l IH]; intros Hties; [reflexivity|].
  cbn [JsArray.sort]. rewrite IH by (intros; apply Hties; now right).
  destruct l as [|y l]; [reflexivity|].
  cbn [JsArray.insert]. rewrite Hties; [reflexivity | now left | right; now left].
Qed.

(** X9.  Sorting by a number or a date column in which no field parses
    leaves the rows in their order, whatever the direction. *)
Theorem sortRows_nothing_parses `{Host} (rows : list Row) (type : ColType)
        (sortCol : Z) (sortDir : SortDir) (colTypes : option (gmap Z ColType)) :
  type = TNumber \/ type = TDate ->
  typeOfCol colTypes sortCol = type ->
  Forall (unparseable type sortCol) rows ->
  sortRows rows sortCol sortDir colTypes = rows.
Proof.
  intros Htype Hmap Hall. unfold sortRows.
  destruct (_ || _); [reflexivity|]. rewrite Hmap.
  apply sort_ties. intros x y Hx Hy.
  rewrite Forall_forall in Hall.
  pose proof (unparseable_low type sortCol x (Hall x (proj2 (list_elem_of_In _ _) Hx))) as Lx.
  pose proof (unparseable_low type sortCol y (Hall y (proj2 (list_elem_of_In _ _) Hy))) as Ly.
  pose proof (cmp_low_low type sortCol Htype x y Lx Ly) as Hcmp.
  unfold JsArray.after.
  replace (compareRows sortCol sortDir type x y)
    with (match sortDir with Asc => JsNum.NaN | _ => JsNum.neg JsNum.NaN end);
    [now destruct sortDir|].
  rewrite <- Hcmp. now destruct sortDir.
Qed.

Lemma sortRows_nothing_parses_witness :
  @sortRows asciiHost (asRows [[lit "n/a"]; []; [lit "-"]; [lit ""]]) 0 Desc
            (Some {[ 0 := TNumber ]})
  = asRows [[lit "n/a"]; []; [lit "-"]; [lit ""]].
Proof.
  apply (@sortRows_nothing_parses asciiHost _ TNumber);
    [now left | reflexivity | repeat constructor].
Defined.

Section SortedSpec.
Context {A : Type} (cmp : A -> A -> JsNum.num) (all : list A).
Hypothesis consistent : consistentOn cmp all = true.

Lemma consistent_asym (x y : A) :
  In x all -> In y all ->
  JsArray.after cmp x y = true -> JsArray.after cmp y x = false.
Proof.
  intros Hx Hy Hxy. unfold consistentOn in consistent.
  rewrite forallb_forall in consistent. specialize (consistent x Hx).
  rewrite forallb_forall in consistent. specialize (consistent y Hy).
  apply andb_prop in consistent as [Hasym _].
  rewrite Hxy in Hasym. cbn in Hasym. now apply negb_true_iff in Hasym.
Qed.

Lemma consistent_trans (x y z : A) :
  In x all -> In y all -> In z all ->
  JsArray.after cmp x y = false -> JsArray.after cmp y z = false ->
  JsArray.after cmp x z = false.
Proof.
  intros Hx Hy Hz Hxy Hyz. unfold consistentOn in consistent.
  rewrite forallb_forall in consistent. specialize (consistent x Hx).
  rewrite forallb_forall in consistent. specialize (consistent y Hy).
  apply andb_prop in consistent as [_ Htrans].
  rewrite forallb_forall in Htrans. specialize (Htrans z Hz).
  rewrite Hxy, Hyz in Htrans. cbn in Htrans. now apply negb_true_iff in Htrans.
Qed.

Lemma insert_sorted (x : A) (l : list A) :
  In x all -> incl l all ->
  StronglySorted (fun a b => JsArray.after cmp a b = false) l ->
  StronglySorted (fun a b => JsArray.after cmp a b = false) (JsArray.insert cmp x l).
Proof.
  intros Hx Hl Hs. induction Hs as [|y l Hs IH Hy].
  - repeat constructor.
  - assert (Hyall : In y all) by (apply Hl; now left).
    assert (Hlall : incl l all) by (intros z Hz; apply Hl; now right).
    cbn [JsArray.insert]. destruct (JsArray.after cmp x y) eqn:Hxy.
    + constructor; [now apply IH|].
      eapply Permutation_Forall; [symmetry; apply insert_permutation|].
      constructor; [now apply consistent_asym | exact Hy].
    + constructor; [now constructor|].
      constructor; [exact Hxy|].
      rewrite Forall_forall in Hy |- *. intros z Hz.
      apply (consistent_trans x y z); auto.
      apply Hlall. now apply list_elem_of_In.
Qed.

Lemma sort_sorted (l : list A) :
  incl l all ->
  StronglySorted (fun a b => JsArray.after cmp a b = false) (JsArray.sort cmp l).
Proof.
  induction l as [|x l IH]; intros Hl; [constructor|].
  cbn [JsArray.sort]. apply insert_sorted.
  - apply Hl. now left.
  - intros z Hz. apply Hl. right.
    eapply Permutation_in; [apply sort_permutation | exact Hz].
  - apply IH. intros z Hz. apply Hl. now right.
Qed.

End SortedSpec.

Lemma StronglySorted_lookup {A} (R : A -> A -> Prop) (l : list A) :
  StronglySorted R l ->
  forall (i j : nat) (a b : A),
    (i < j)%nat -> l !! i = Some a -> l !! j = Some b -> R a b.
Proof.
  induction 1 as [|x l Hs IH Hx]; intros i j a b Hij Hi Hj; [discriminate|].
  destruct j as [|j]; [lia|]. cbn in Hj.
  destruct i as [|i].
  - injection Hi as <-. rewrite Forall_forall in Hx. apply Hx.
    eapply list_elem_of_lookup_2. exact Hj.
  - cbn in Hi. apply (IH i j); [lia | exact Hi | exact Hj].
Qed.

(** X10.  When the comparator orders the rows given consistently, the
    rows [sortRows] returns are in order: no row is ordered after a row
    that comes later in the result. *)
Theorem sortRows_sorted `{Host} (rows : list Row) (sortCol : Z)
        (sortDir : SortDir) (colTypes : option (gmap Z ColType)) :
  0 <= sortCol -> sortDir <> NoSort ->
  consistentOn (compareRows sortCol sortDir (typeOfCol colTypes sortCol)) rows = true ->
  forall (i j : nat) (a b : Row),
    (i < j)%nat ->
    sortRows rows sortCol sortDir colTypes !! i = Some a ->
    sortRows rows sortCol sortDir colTypes !! j = Some b ->
    JsArray.after (compareRows sortCol sortDir (typeOfCol colTypes sortCol)) a b = false.
Proof.
  intros Hcol Hdir Hcons. unfold sortRows.
  destruct (Z.ltb_spec sortCol 0) as [?|_]; [lia|].
  destruct sortDir; [| |contradiction]; cbn [orb];
    apply StronglySorted_lookup; apply (sort_sorted _ rows Hcons); apply incl_refl.
Qed.

Lemma sortRows_sorted_witness :
  JsArray.after (@compareRows asciiHost 0 Desc TNumber)
                [Some (lit "1,000")] [Some (lit "x")] = false.
Proof.
  apply (@sortRows_sorted asciiHost
           (asRows [[lit "5"]; [lit "x"]; [lit "1,000"]; [lit "10"]; [lit "5"]])
           0 Desc (Some {[ 0 := TNumber ]})
           ltac:(lia) ltac:(discriminate) ltac:(vm_compute; reflexivity)
           0%nat 4%nat);
    [lia | reflexivity | reflexivity].
Defined.

(** ** Paginator: sizes of the pages *)

Lemma sliceIndex_step (len a b : Z) :
  0 <= len -> 0 <= b -> Js.sliceIndex len (a + b) - Js.sliceIndex len a <= b.
Proof.
  intros Hlen Hb. unfold Js.sliceIndex.
  destruct (Z.ltb_spec (a + b) 0), (Z.ltb_spec a 0); lia.
Qed.

(** X11.  With a positive page size a page never holds more rows than the
    page size, whatever the page number, negative ones included. *)
Theorem getPageSlice_at_most {A} (rows : list A) (page pageSize : Z) :
  0 < pageSize ->
  Z.of_nat (length (getPageSlice rows page pageSize)) <= pageSize.
Proof.
  intros Hps. unfold getPageSlice.
  destruct (Z.eqb_spec pageSize 0) as [?|_]; [lia|].
  unfold Js.slice. rewrite length_firstn.
  pose proof (sliceIndex_step (Z.of_nat (length rows)) ((page - 1) * pageSize) pageSize
                ltac:(lia) ltac:(lia)).
  lia.
Qed.

Lemma getPageSlice_at_most_witness :
  Z.of_nat (length (getPageSlice [10; 20; 30; 40; 50] (-1) 2)) <= 2.
Proof. apply getPageSlice_at_most. lia. Defined.

Lemma calcTotalPages_bounds (count pageSize : Z) :
  0 < pageSize -> 0 <= count ->
  1 <= calcTotalPages count pageSize /\
  count <= calcTotalPages count pageSize * pageSize /\
  (calcTotalPages count pageSize - 1) * pageSize < Z.max count 1.
Proof.
  intros Hps Hcount. unfold calcTotalPages, ceilDiv.
  destruct (Z.eqb_spec pageSize 0) as [?|_]; [lia|].
  pose proof (Z.mul_div_le (- count) pageSize Hps).
  pose proof (Z.mul_succ_div_gt (- count) pageSize Hps).
  nia.
Qed.

(** X12.  For a positive page size and a non-negative count,
    [calcTotalPages] is the least number of pages, at least one, that
    holds [count] rows. *)
Theorem calcTotalPages_least (count pageSize : Z) :
  0 < pageSize -> 0 <= count ->
  1 <= calcTotalPages count pageSize /\
  count <= calcTotalPages count pageSize * pageSize /\
  forall m, 1 <= m -> count <= m * pageSize -> calcTotalPages count pageSize <= m.
Proof.
  intros Hps Hcount.
  destruct (calcTotalPages_bounds count pageSize Hps Hcount) as (H1 & H2 & H3).
  repeat split; [exact H1 | exact H2 |].
  intros m Hm Hfit. nia.
Qed.

Lemma calcTotalPages_least_witness :
  1 <= calcTotalPages 51 25 /\ 51 <= calcTotalPages 51 25 * 25 /\
  forall m, 1 <= m -> 51 <= m * 25 -> calcTotalPages 51 25 <= m.
Proof. apply calcTotalPages_least; lia. Defined.

(** X13.  With rows to show and a positive page size, every page from 1
    to [calcTotalPages] has a row; the pages before the last one hold
    exactly [pageSize] rows and the last one holds the rest. *)
Theorem pages_filled {A} (rows : list A) (page pageSize : Z) :
  0 < pageSize -> rows <> [] ->
  1 <= page <= calcTotalPages (Z.of_nat (length rows)) pageSize ->
  getPageSlice rows page pageSize <> [] /\
  (page < calcTotalPages (Z.of_nat (length rows)) pageSize ->
   Z.of_nat (length (getPageSlice rows page pageSize)) = pageSize) /\
  (page = calcTotalPages (Z.of_nat (length rows)) pageSize ->
   Z.of_nat (length (getPageSlice rows page pageSize))
   = Z.of_nat (length rows) - (page - 1) * pageSize).
Proof.
  intros Hps Hrows Hpage.
  destruct (calcTotalPages_bounds (Z.of_nat (length rows)) pageSize Hps ltac:(lia))
    as (H1 & H2 & H3).
  assert (Hlen : 0 < Z.of_nat (length rows)) by (destruct rows; [contradiction | simpl; lia]).
  assert (Hsize : Z.of_nat (length (getPageSlice rows page pageSize))
                  = Z.min pageSize (Z.of_nat (length rows) - (page - 1) * pageSize)).
  { rewrite getPageSlice_range by lia. unfold range.
    rewrite length_firstn, length_skipn. nia. }
  repeat split.
  - intros Hempty. rewrite Hempty in Hsize. simpl in Hsize. nia.
  - intros Hlt. rewrite Hsize. nia.
  - intros Heq. rewrite Hsize. nia.
Qed.

Lemma pages_filled_witness :
  getPageSlice [10; 20; 30; 40; 50] 3 2 <> [] /\
  Z.of_nat (length (getPageSlice [10; 20; 30; 40; 50] 2 2)) = 2.
Proof.
  destruct (pages_filled [10; 20; 30; 40; 50] 3 2) as (Hne & _ & _);
    [lia | discriminate | vm_compute; split; discriminate |].
  destruct (pages_filled [10; 20; 30; 40; 50] 2 2) as (_ & Hfull & _);
    [lia | discriminate | vm_compute; split; discriminate |].
  split; [exact Hne | apply Hfull; reflexivity].
Defined.

(** ** Paginator: the page list *)

Lemma fold_push {A B} (f : A -> B) (l : list A) (r : list B) :
  fold_left (fun r i => r ++ [f i]) l r = r ++ List.map f l.
Proof.
  revert r. induction l as [|x l IH]; intros r; cbn [fold_left List.map].
  - now rewrite app_nil_r.
  - rewrite IH, <- app_assoc. reflexivity.
Qed.

Lemma pageNumbers_app (a b : list PageItem) :
  pageNumbers (a ++ b) = pageNumbers a ++ pageNumbers b.
Proof.
  induction a as [|[p|] a IH]; cbn [app pageNumbers]; [reflexivity | now rewrite IH | exact IH].
Qed.

Lemma pageNumbers_addEllipsis (r : list PageItem) :
  pageNumbers (addEllipsis r) = pageNumbers r.
Proof.
  destruct (addEllipsis_app r) as [-> | ->]; [reflexivity|].
  rewrite pageNumbers_app. cbn. apply app_nil_r.
Qed.

Lemma pageNumbers_pages {A} (f : A -> Z) (l : list A) :
  pageNumbers (List.map (fun i => Page (f i)) l) = List.map f l.
Proof. induction l as [|x l IH]; cbn; [reflexivity | now rewrite IH]. Qed.

(** The page numbers of a long list: 1, the pages around the current one,
    and the last page. *)
Lemma buildPageList_numbers (cur total : Z) :
  7 < total ->
  pageNumbers (buildPageList cur total)
  = 1 :: List.map (fun i => Z.max 2 (cur - 1) + Z.of_nat i)
           (seq 0 (Z.to_nat (Z.min (total - 1) (cur + 1) - Z.max 2 (cur - 1) + 1)))
      ++ [total].
Proof.
  intros Ht. unfold buildPageList.
  destruct (Z.leb_spec total 7) as [?|_]; [lia|].
  rewrite pageNumbers_app.
  assert (Hif : forall (b : bool) r,
             pageNumbers (if b then addEllipsis r else r) = pageNumbers r)
    by (intros [] r; [apply pageNumbers_addEllipsis | reflexivity]).
  rewrite Hif. unfold pushPages. rewrite fold_push, pageNumbers_app, Hif.
  rewrite pageNumbers_pages. reflexivity.
Qed.

Lemma sorted_range (f : nat -> Z) (a k : nat) :
  (forall i j, (i < j)%nat -> f i < f j) ->
  StronglySorted Z.lt (List.map f (seq a k)).
Proof.
  intros Hf. revert a. induction k as [|k IH]; intros a; [constructor|].
  cbn [seq List.map]. constructor; [apply IH|].
  apply Forall_forall. intros z Hz.
  apply list_elem_of_In, in_map_iff in Hz as (j & <- & Hj).
  apply in_seq in Hj. apply Hf. lia.
Qed.

Lemma sorted_snoc (l : list Z) (x : Z) :
  StronglySorted Z.lt l -> Forall (fun y => y < x) l ->
  StronglySorted Z.lt (l ++ [x]).
Proof.
  induction 1 as [|y l Hs IH Hy]; intros Hx; cbn [app].
  - repeat constructor.
  - inversion Hx as [|? ? Hyx Hlx]; subst.
    constructor; [now apply IH|].
    apply Forall_app. split; [exact Hy | now constructor].
Qed.

(** X14.  For a current page between 1 and [total], the page numbers of
    the page list are increasing (so none comes twice), lie between 1 and
    [total], and the first page, the last page, the current page and the
    pages next to it are always among them. *)
Theorem buildPageList_pages (current total : Z) :
  1 <= current <= total ->
  StronglySorted Z.lt (pageNumbers (buildPageList current total)) /\
  Forall (fun p => 1 <= p <= total) (pageNumbers (buildPageList current total)) /\
  forall p, 1 <= p <= total ->
            p = 1 \/ p = total \/ current - 1 <= p <= current + 1 ->
            In p (pageNumbers (buildPageList current total)).
Proof.
  intros Hc.
  destruct (Z.le_gt_cases total 7) as [Hsmall | Hlarge].
  - rewrite (buildPageList_small current total Hsmall). unfold pagesUpTo.
    rewrite pageNumbers_pages. repeat split.
    + apply sorted_range. intros; lia.
    + apply Forall_forall. intros z Hz.
      apply list_elem_of_In, in_map_iff in Hz as (j & <- & Hj).
      apply in_seq in Hj. lia.
    + intros p Hp _. apply in_map_iff. exists (Z.to_nat p).
      split; [lia | apply in_seq; lia].
  - rewrite (buildPageList_numbers current total Hlarge).
    set (lo := Z.max 2 (current - 1)).
    set (hi := Z.min (total - 1) (current + 1)).
    assert (Hmid : forall z, In z (List.map (fun i => lo + Z.of_nat i)
                                            (seq 0 (Z.to_nat (hi - lo + 1))))
                             <-> lo <= z <= hi).
    { intros z. rewrite in_map_iff. split.
      - intros (j & <- & Hj). apply in_seq in Hj. lia.
      - intros Hz. exists (Z.to_nat (z - lo)). split; [lia | apply in_seq; lia]. }
    repeat split.
    + constructor.
      * apply sorted_snoc; [apply sorted_range; intros; lia|].
        apply Forall_forall. intros z Hz. apply list_elem_of_In, Hmid in Hz. lia.
      * apply Forall_forall. intros z Hz.
        apply list_elem_of_In, in_app_iff in Hz as [Hz | [<- | []]]; [|lia].
        apply Hmid in Hz. lia.
    + apply Forall_forall. intros z Hz.
      apply list_elem_of_In in Hz as [<- | Hz]; [lia|].
      apply in_app_iff in Hz as [Hz | [<- | []]]; [|lia].
      apply Hmid in Hz. lia.
    + intros p Hp Hnear.
      destruct (Z.eq_dec p 1) as [-> | Hp1]; [now left|]. right.
      apply in_app_iff.
      destruct (Z.eq_dec p total) as [-> | Hpt]; [right; now left|]. left.
      apply Hmid. lia.
Qed.

Lemma buildPageList_pages_witness :
  StronglySorted Z.lt (pageNumbers (buildPageList 10 20)) /\
  In 11 (pageNumbers (buildPageList 10 20)).
Proof.
  destruct (buildPageList_pages 10 20) as (Hs & _ & Hin); [lia|].
  split; [exact Hs | apply Hin; lia].
Defined.

Lemma addEllipsis_length (r : list PageItem) :
  (length (addEllipsis r) <= S (length r))%nat.
Proof.
  destruct (addEllipsis_app r) as [-> | ->]; [lia|]. rewrite length_app. simpl. lia.
Qed.

(** X15.  The page list never has more than seven entries, whatever the
    current page and the number of pages. *)
Theorem buildPageList_at_most_seven (current total : Z) :
  (length (buildPageList current total) <= 7)%nat.
Proof.
  unfold buildPageList. destruct (Z.leb_spec total 7) as [Hsmall | Hlarge].
  - rewrite length_map, length_seq. lia.
  - set (r1 := if 3 <? current then addEllipsis ([] ++ [Page 1]) else [] ++ [Page 1]).
    set (r2 := pushPages (Z.max 2 (current - 1)) (Z.min (total - 1) (current + 1)) r1).
    set (r3 := if current <? total - 2 then addEllipsis r2 else r2).
    assert (H1 : (length r1 <= 2)%nat).
    { subst r1. destruct (3 <? current); [|simpl; lia].
      pose proof (addEllipsis_length ([] ++ [Page 1])). simpl in *. lia. }
    assert (H2 : (length r2 <= length r1 + 3)%nat).
    { subst r2. unfold pushPages. rewrite fold_push, length_app, length_map, length_seq.
      lia. }
    assert (H3 : (length r3 <= S (length r2))%nat).
    { subst r3. destruct (current <? total - 2); [apply addEllipsis_length | lia]. }
    rewrite length_app. simpl. lia.
Qed.

(** ** Type detector: the sample *)

(** X16.  Only the first 500 rows count: rows after them change no type. *)
Theorem detectColTypes_sample_bound `{Host} (hs : list str) (data more : list Row) :
  (500 <= length data)%nat ->
  detectColTypes hs (data ++ more) = detectColTypes hs data.
Proof.
  intros Hlen. unfold detectColTypes. rewrite !sample_firstn.
  rewrite firstn_app. replace (500 - length data)%nat with O by lia.
  now rewrite firstn_O, app_nil_r.
Qed.

Lemma detectColTypes_sample_bound_witness :
  @detectColTypes asciiHost [lit "n"]
     (repeat [Some (lit "7")] 500 ++ asRows [[lit "x"]; [lit "y"]])
  = @detectColTypes asciiHost [lit "n"] (repeat [Some (lit "7")] 500).
Proof.
  apply (@detectColTypes_sample_bound asciiHost).
  rewrite repeat_length. lia.
Defined.

Lemma sampleValues_blank `{Host} (d1 d2 : list Row) (row : Row) (c : nat) :
  (length (d1 ++ row :: d2) <= 500)%nat ->
  Js.trim (cellStr (at_ row c)) = [] ->
  sampleValues (d1 ++ row :: d2) c = sampleValues (d1 ++ d2) c.
Proof.
  intros Hlen Hblank. unfold sampleValues.
  rewrite !firstn_all2 by (rewrite ?length_app in *; simpl in *; lia).
  rewrite !List.map_app, !List.filter_app. cbn [List.map List.filter].
  now rewrite Hblank.
Qed.

(** X17.  Blank cells are not counted: within the sample, a row whose
    cell in a column is empty, missing or white space leaves the type of
    that column as it is without the row. *)
Theorem detectColTypes_blank_ignored `{Host} (hs : list str) (d1 d2 : list Row)
        (row : Row) (c : nat) :
  (length (d1 ++ row :: d2) <= 500)%nat ->
  Js.trim (cellStr (at_ row c)) = [] ->
  detectColTypes hs (d1 ++ row :: d2) !! Z.of_nat c
  = detectColTypes hs (d1 ++ d2) !! Z.of_nat c.
Proof.
  intros Hlen Hblank. rewrite !detectColTypes_lookup.
  destruct (decide _); [|reflexivity].
  rewrite Nat2Z.id. now rewrite sampleValues_blank.
Qed.

Lemma detectColTypes_blank_ignored_witness :
  @detectColTypes asciiHost [lit "n"] (asRows [[lit "1"]; [lit "  "]; [lit "x"]]) !! 0
  = @detectColTypes asciiHost [lit "n"] (asRows [[lit "1"]; [lit "x"]]) !! 0.
Proof.
  apply (@detectColTypes_blank_ignored asciiHost [lit "n"]
           (asRows [[lit "1"]]) (asRows [[lit "x"]]) [Some (lit "  ")] 0);
    [simpl; lia | reflexivity].
Defined.

Lemma atLeast80_all (t : nat) : (1 <= t)%nat -> atLeast80 t t = true.
Proof.
  intros Ht. rewrite atLeast80_integers by exact Ht. apply Z.leb_le. lia.
Qed.

Lemma filter_none {A} (p : A -> bool) (l : list A) :
  (forall x, In x l -> p x = false) -> List.filter p l = [].
Proof.
  induction l as [|x l IH]; intros Hall; [reflexivity|].
  cbn [List.filter]. rewrite (Hall x) by now left.
  apply IH. intros y Hy. apply Hall. now right.
Qed.

(** X18.  A column below [headers.length] whose sampled values, blank
    cells apart, all parse as numbers and are at least one is a number
    column; one whose values all parse as dates and none as a number is a
    date column; one with blank cells only is a string column. *)
Theorem detectColTypes_uniform `{Host} (hs : list str) (data : list Row) (c : nat) :
  (c < length hs)%nat ->
  (sampleValues data c <> [] ->
   Forall (fun v => isNumeric v = true) (sampleValues data c) ->
   detectColTypes hs data !! Z.of_nat c = Some TNumber) /\
  (sampleValues data c <> [] ->
   Forall (fun v => isNumeric v = false /\ isDate v = true) (sampleValues data c) ->
   detectColTypes hs data !! Z.of_nat c = Some TDate) /\
  (sampleValues data c = [] ->
   detectColTypes hs data !! Z.of_nat c = Some TString).
Proof.
  intros Hc. rewrite detectColTypes_lookup.
  destruct (decide _); [|lia]. rewrite Nat2Z.id.
  unfold typeOfValues. repeat split.
  - intros Hne Hall. rewrite Forall_forall in Hall.
    rewrite filter_all by (intros v Hv; apply Hall; now apply list_elem_of_In).
    destruct (sampleValues data c) as [|v vs]; [contradiction|].
    cbn [length Nat.eqb]. rewrite atLeast80_all by lia. reflexivity.
  - intros Hne Hall. rewrite Forall_forall in Hall.
    rewrite (filter_none isNumeric)
      by (intros v Hv; apply Hall; now apply list_elem_of_In).
    rewrite filter_all
      by (intros v Hv; destruct (Hall v) as [-> ->];
          [now apply list_elem_of_In | reflexivity]).
    destruct (sampleValues data c) as [|v vs]; [contradiction|].
    cbn [length Nat.eqb]. rewrite atLeast80_all by lia.
    replace (atLeast80 0 (S (length vs))) with false; [reflexivity|].
    symmetry. rewrite atLeast80_integers by lia. apply Z.leb_gt. lia.
  - intros ->. reflexivity.
Qed.

Lemma detectColTypes_uniform_witness :
  @detectColTypes asciiHost [lit "a"; lit "n"]
     (asRows [[lit "x"; lit "1,000"]; [lit "y"; lit " "]; [lit "z"; lit "-2.5e3"]]) !! 1
  = Some TNumber.
Proof.
  destruct (@detectColTypes_uniform asciiHost [lit "a"; lit "n"]
              (asRows [[lit "x"; lit "1,000"]; [lit "y"; lit " "]; [lit "z"; lit "-2.5e3"]])
              1%nat) as (Hnum & _ & _); [simpl; lia|].
  apply Hnum; [discriminate | repeat constructor].
Defined.

(** ** Parser: line endings *)

Lemma withCRLF_length (t : str) : (length t <= length (withCRLF t))%nat.
Proof.
  induction t as [|c t IH]; [reflexivity|]. cbn [withCRLF].
  destruct (c =? LF)%N; simpl; lia.
Qed.

Lemma firstLine_withCRLF (t : str) :
  Forall (fun c => c <> QUOTE /\ c <> CR) t ->
  Js.firstLine (withCRLF t) = Js.firstLine t.
Proof.
  induction 1 as [|c t [_ Hc] _ IH]; [reflexivity|]. cbn [withCRLF Js.firstLine].
  destruct (N.eqb_spec c LF) as [->|Hlf]; [reflexivity|].
  cbn [Js.firstLine]. destruct (N.eqb_spec c LF) as [?|_]; [contradiction|].
  destruct (N.eqb_spec c CR) as [?|_]; [contradiction|].
  cbn [andb]. now rewrite IH.
Qed.

Lemma scanUnquoted_withCRLF (delim : char) (t : str) :
  Forall (fun c => c <> QUOTE /\ c <> CR) t ->
  forall field,
    scanUnquoted delim (withCRLF t) field
    = (fst (scanUnquoted delim t field), withCRLF (snd (scanUnquoted delim t field))).
Proof.
  induction 1 as [|c t [_ Hc] _ IH]; intros field; [reflexivity|].
  cbn [withCRLF scanUnquoted].
  destruct (N.eqb_spec c LF) as [->|Hlf].
  { rewrite orb_true_r. cbn [scanUnquoted fst snd withCRLF].
    rewrite N.eqb_refl, orb_true_r. reflexivity. }
  rewrite orb_false_r.
  destruct (N.eqb_spec c CR) as [?|_]; [contradiction|]. rewrite orb_false_r.
  cbn [scanUnquoted].
  destruct (N.eqb_spec c delim) as [->|Hd]; cbn [orb fst snd].
  - cbn [withCRLF]. destruct (N.eqb_spec delim LF) as [?|_]; [contradiction | reflexivity].
  - destruct (N.eqb_spec c CR) as [?|_]; [contradiction|].
    destruct (N.eqb_spec c LF) as [?|_]; [contradiction|]. cbn [orb]. apply IH.
Qed.

(** One turn of [parseRow] at a field that does not open with a quote. *)
Lemma parseRow_bare (delim : char) (fuel : nat) (c : char) (t : str) (row : list str) :
  c <> QUOTE ->
  parseRow (S fuel) delim (c :: t) row
  = match snd (scanUnquoted delim (c :: t) []) with
    | d :: t2 =>
        if (d =? delim)%N
        then parseRow fuel delim t2 (row ++ [Js.trim (fst (scanUnquoted delim (c :: t) []))])
        else if (d =? CR)%N
        then Some (row ++ [Js.trim (fst (scanUnquoted delim (c :: t) []))], skipLF t2)
        else if (d =? LF)%N
        then Some (row ++ [Js.trim (fst (scanUnquoted delim (c :: t) []))], t2)
        else Some (row ++ [Js.trim (fst (scanUnquoted delim (c :: t) []))],
                   snd (scanUnquoted delim (c :: t) []))
    | [] => Some (row ++ [Js.trim (fst (scanUnquoted delim (c :: t) []))], [])
    end.
Proof.
  intros Hc. cbn [parseRow].
  destruct (N.eqb_spec c QUOTE) as [?|_]; [contradiction|].
  destruct (scanUnquoted delim (c :: t) []) as [field [|d t2]]; reflexivity.
Qed.

Lemma parseRow_withCRLF (delim : char) (fuel : nat) :
  delim <> CR -> delim <> LF ->
  forall t row row' t',
    Forall (fun c => c <> QUOTE /\ c <> CR) t ->
    parseRow fuel delim t row = Some (row', t') ->
    Forall (fun c => c <> QUOTE /\ c <> CR) t' /\
    parseRow fuel delim (withCRLF t) row = Some (row', withCRLF t').
Proof.
  intros Hdcr Hdlf.
  induction fuel as [|fuel IH]; intros t row row' t' Ht Hrow; [discriminate|].
  destruct t as [|c t].
  { injection Hrow as <- <-. split; [constructor | reflexivity]. }
  assert (Hc : c <> QUOTE) by (inversion Ht; tauto).
  rewrite (parseRow_bare delim fuel c t row Hc) in Hrow.
  assert (Hstep : parseRow (S fuel) delim (withCRLF (c :: t)) row
                  = match withCRLF (snd (scanUnquoted delim (c :: t) [])) with
                    | d :: t2 =>
                        if (d =? delim)%N
                        then parseRow fuel delim t2
                               (row ++ [Js.trim (fst (scanUnquoted delim (c :: t) []))])
                        else if (d =? CR)%N
                        then Some (row ++ [Js.trim (fst (scanUnquoted delim (c :: t) []))],
                                   skipLF t2)
                        else if (d =? LF)%N
                        then Some (row ++ [Js.trim (fst (scanUnquoted delim (c :: t) []))], t2)
                        else Some (row ++ [Js.trim (fst (scanUnquoted delim (c :: t) []))],
                                   withCRLF (snd (scanUnquoted delim (c :: t) [])))
                    | [] => Some (row ++ [Js.trim (fst (scanUnquoted delim (c :: t) []))], [])
                    end).
  { pose proof (scanUnquoted_withCRLF delim (c :: t) Ht []) as Hscan.
    cbn [withCRLF] in Hscan |- *.
    destruct (c =? LF)%N.
    - rewrite parseRow_bare by discriminate. now rewrite Hscan.
    - rewrite parseRow_bare by exact Hc. now rewrite Hscan. }
  rewrite Hstep.
  destruct (scanUnquoted_read delim (c :: t) []) as (read & _ & Htext & _).
  assert (Ht1 : Forall (fun c => c <> QUOTE /\ c <> CR)
                       (snd (scanUnquoted delim (c :: t) [])))
    by (rewrite Htext in Ht; now apply Forall_app in Ht).
  destruct (snd (scanUnquoted delim (c :: t) [])) as [|d t2].
  { injection Hrow as <- <-. split; [constructor | reflexivity]. }
  inversion Ht1 as [|? ? [_ Hd] Ht2]; subst.
  cbn [withCRLF].
  destruct (N.eqb_spec d LF) as [->|Hlf].
  - destruct (N.eqb_spec LF delim) as [?|_]; [congruence|].
    destruct (N.eqb_spec CR delim) as [?|_]; [congruence|].
    cbn in Hrow |- *. injection Hrow as <- <-. split; [exact Ht2 | reflexivity].
  - destruct (N.eqb_spec d delim) as [?|_]; [now apply IH|].
    destruct (N.eqb_spec d CR) as [?|_]; [contradiction|].
    injection Hrow as <- <-. split; [exact Ht1|].
    cbn [withCRLF]. destruct (N.eqb_spec d LF) as [?|_]; [contradiction | reflexivity].
Qed.

Lemma parseRows_withCRLF (delim : char) (fuel : nat) :
  delim <> CR -> delim <> LF ->
  forall t acc rs,
    Forall (fun c => c <> QUOTE /\ c <> CR) t ->
    parseRows fuel delim t acc = Some rs ->
    parseRows fuel delim (withCRLF t) acc = Some rs.
Proof.
  intros Hdcr Hdlf.
  induction fuel as [|fuel IH]; intros t acc rs Ht Hrs; [discriminate|].
  destruct t as [|c t]; [exact Hrs|].
  cbn [parseRows] in Hrs.
  destruct (parseRow (S (length (c :: t))) delim (c :: t) []) as [[row t1]|] eqn:Hrow;
    [|discriminate].
  destruct (parseRow_withCRLF delim _ Hdcr Hdlf _ _ _ _ Ht Hrow) as [Ht1 Hcr].
  apply (parseRow_fuel_mono _ _ (S (length (withCRLF (c :: t))))) in Hcr;
    [|pose proof (withCRLF_length (c :: t)); lia].
  assert (Hne : exists d u, withCRLF (c :: t) = d :: u)
    by (cbn [withCRLF]; destruct (c =? LF)%N; eauto).
  destruct Hne as (d & u & Hdu). rewrite Hdu in *.
  cbn [parseRows]. rewrite Hcr. now apply IH.
Qed.

Lemma detectDelim_not_break (text : str) :
  detectDelim text <> CR /\ detectDelim text <> LF.
Proof.
  unfold detectDelim, delims. cbn [fold_left]. unfold delimStep.
  repeat (match goal with |- context [if ?b then _ else _] => destruct b end; cbn [fst snd]);
    split; discriminate.
Qed.

(** X19.  In a text without a double quote and without a carriage return,
    writing every line break as carriage return, line feed changes nothing:
    the parser finds the same delimiter and the same rows. *)
Theorem parseCSV_line_endings (text : str) :
  Forall (fun c => c <> QUOTE /\ c <> CR) text ->
  parseCSV (withCRLF text) = parseCSV text.
Proof.
  intros Htext.
  assert (Hbom : stripBOM (withCRLF text) = withCRLF (stripBOM text) /\
                 Forall (fun c => c <> QUOTE /\ c <> CR) (stripBOM text)).
  { destruct Htext as [|c t Hc Ht]; [split; [reflexivity | constructor]|].
    cbn [withCRLF stripBOM].
    destruct (N.eqb_spec c LF) as [->|Hlf]; [split; [reflexivity | now constructor]|].
    cbn [stripBOM]. destruct (c =? BOM)%N; [now split|].
    cbn [withCRLF]. destruct (N.eqb_spec c LF) as [?|_]; [contradiction|].
    split; [reflexivity | now constructor]. }
  destruct Hbom as [Hbom Hstripped].
  destruct (parseCSV_total text) as [rs Hrs]. rewrite Hrs.
  unfold parseCSV in *. rewrite Hbom.
  set (t := stripBOM text) in *. clearbody t.
  assert (Hdelim : detectDelim (withCRLF t) = detectDelim t)
    by (unfold detectDelim; now rewrite firstLine_withCRLF).
  rewrite Hdelim.
  destruct (parseRows (S (length t)) (detectDelim t) t []) as [rs'|] eqn:Hparse;
    [|discriminate].
  injection Hrs as <-.
  destruct (detectDelim_not_break t) as [Hcr Hlf].
  apply (parseRows_withCRLF _ _ Hcr Hlf _ _ _ Hstripped) in Hparse.
  apply (parseRows_fuel_mono _ _ (S (length (withCRLF t)))) in Hparse;
    [|pose proof (withCRLF_length t); lia].
  now rewrite Hparse.
Qed.

Lemma parseCSV_line_endings_witness :
  parseCSV (withCRLF (lit "a;b" ++ [LF] ++ lit "1; 2" ++ [LF; LF] ++ lit "3;4" ++ [LF]))
  = parseCSV (lit "a;b" ++ [LF] ++ lit "1; 2" ++ [LF; LF] ++ lit "3;4" ++ [LF]).
Proof.
  apply parseCSV_line_endings.
  repeat (constructor; [split; discriminate|]). constructor.
Defined.

(** ** Filter engine: a longer search *)

Lemma startsWith_spec (p s : str) :
  Js.startsWith p s = true <-> exists b, s = p ++ b.
Proof.
  revert s. induction p as [|a p IH]; intros s; cbn [Js.startsWith].
  - split; [intros _; now exists s | reflexivity].
  - destruct s as [|c s].
    + split; [discriminate | intros [b Hb]; discriminate].
    + rewrite andb_true_iff, N.eqb_eq, IH. split.
      * intros [-> [b ->]]. now exists b.
      * intros [b Hb]. injection Hb as -> ->. split; [reflexivity | now exists b].
Qed.

Lemma includes_spec (s p : str) :
  Js.includes s p = true <-> exists a b, s = a ++ p ++ b.
Proof.
  induction s as [|c s IH]; cbn [Js.includes]; rewrite orb_true_iff, startsWith_spec.
  - split.
    + intros [[b Hb] | Hf]; [now exists [], b | discriminate].
    + intros (a & b & Hab). left. exists b.
      destruct a; [exact Hab | discriminate].
  - rewrite IH. split.
    + intros [[b Hb] | (a & b & ->)]; [now exists [], b | now exists (c :: a), b].
    + intros ([|c' a] & b & Hab); [left; now exists b|].
      right. injection Hab as -> ->. now exists a, b.
Qed.

Lemma includes_trans (s p q : str) :
  Js.includes s p = true -> Js.includes p q = true -> Js.includes s q = true.
Proof.
  rewrite !includes_spec. intros (a & b & ->) (a' & b' & ->).
  exists (a ++ a'), (b' ++ b). now rewrite <- !app_assoc.
Qed.

(** X20.  A search that contains the previous one, case ignored, as when
    the user types on, keeps only rows the previous search kept: its
    result is the result of searching in the previous result. *)
Theorem filterRows_longer_search `{Host} (data : list Row) (hs : option (list str))
        (q q' : str) (colFilters : option (list cell)) :
  containsCI q' q ->
  filterRows data hs (Some q') colFilters
  = filterRows (filterRows data hs (Some q) colFilters) hs (Some q') colFilters.
Proof.
  unfold containsCI. intros Hsub. unfold filterRows. cbn [cellStr].
  rewrite filter_filter_and. apply filter_ext. intros row.
  set (cols := List.map _ _). set (n := match hs with Some h => length h | None => O end).
  destruct (keepsRow (toLowerCase q') cols n row) eqn:Hnew;
    [|now rewrite andb_false_r].
  rewrite andb_true_r. symmetry. unfold keepsRow in *.
  destruct (nonEmpty (toLowerCase q') &&
            negb (existsb (fun x => Js.includes (toLowerCase (cellStr x)) (toLowerCase q'))
                          row)) eqn:Hq'; [discriminate|].
  rewrite Hnew.
  destruct (toLowerCase q) as [|c lq] eqn:Hlq; [reflexivity|].
  assert (Hne : nonEmpty (toLowerCase q') = true).
  { apply includes_spec in Hsub as (a & b & Hab). rewrite Hab.
    destruct a; reflexivity. }
  rewrite Hne in Hq'. cbn [andb] in Hq'. apply negb_false_iff in Hq'.
  apply existsb_exists in Hq' as (x & Hx & Hin).
  cbn [nonEmpty andb].
  replace (existsb _ row) with true; [reflexivity|].
  symmetry. apply existsb_exists. exists x. split; [exact Hx|].
  now apply (includes_trans _ (toLowerCase q')).
Qed.

Lemma filterRows_longer_search_witness :
  @filterRows asciiHost (asRows [[lit "Alice"]; [lit "Bob"]; [lit "Malice"]])
              (Some [lit "name"]) (Some (lit "LIC")) None
  = @filterRows asciiHost
      (@filterRows asciiHost (asRows [[lit "Alice"]; [lit "Bob"]; [lit "Malice"]])
                   (Some [lit "name"]) (Some (lit "i")) None)
      (Some [lit "name"]) (Some (lit "LIC")) None.
Proof. apply (@filterRows_longer_search asciiHost). reflexivity. Defined.

(** ** The application: one handler at a time *)

(** X21.  Three clicks on the header of a column that is not the sorted
    one: the first sorts it ascending, the second descending, and the
    third leaves the table unsorted, the view being the filtered data in
    the order of the file. *)
Theorem header_click_cycle `{Host} (c : nat) (st : App.State) :
  App.sortCol st <> Z.of_nat c ->
  (App.sortCol (App.activate c st) = Z.of_nat c /\
   App.sortDir (App.activate c st) = Asc) /\
  (App.sortCol (App.activate c (App.activate c st)) = Z.of_nat c /\
   App.sortDir (App.activate c (App.activate c st)) = Desc) /\
  (App.sortCol (App.activate c (App.activate c (App.activate c st))) = -1 /\
   App.sortDir (App.activate c (App.activate c (App.activate c st))) = NoSort /\
   App.filtered (App.activate c (App.activate c (App.activate c st)))
   = filterRows (App.data st) (Some (App.headers st)) (Some (App.globalSearch st))
                (Some (App.colFilters st))).
Proof.
  intros Hcol.
  assert (H1 : App.nextSort c st = (Z.of_nat c, Asc)).
  { unfold App.nextSort. destruct (Z.eqb_spec (App.sortCol st) (Z.of_nat c)); [contradiction|].
    reflexivity. }
  assert (H2 : App.nextSort c (App.activate c st) = (Z.of_nat c, Desc)).
  { unfold App.nextSort, App.activate. cbn [App.applyFiltersAndSort App.sortCol App.sortDir].
    rewrite H1. cbn [fst snd]. now rewrite Z.eqb_refl. }
  assert (H3 : App.nextSort c (App.activate c (App.activate c st)) = (-1, NoSort)).
  { unfold App.nextSort. unfold App.activate at 1 3.
    cbn [App.applyFiltersAndSort App.sortCol App.sortDir].
    rewrite H2. cbn [fst snd]. now rewrite Z.eqb_refl. }
  repeat split.
  - unfold App.activate. cbn [App.applyFiltersAndSort App.sortCol]. now rewrite H1.
  - unfold App.activate. cbn [App.applyFiltersAndSort App.sortDir]. now rewrite H1.
  - unfold App.activate at 1. cbn [App.applyFiltersAndSort App.sortCol]. now rewrite H2.
  - unfold App.activate at 1. cbn [App.applyFiltersAndSort App.sortDir]. now rewrite H2.
  - unfold App.activate at 1. cbn [App.applyFiltersAndSort App.sortCol]. now rewrite H3.
  - unfold App.activate at 1. cbn [App.applyFiltersAndSort App.sortDir]. now rewrite H3.
  - unfold App.activate at 1. cbn [App.applyFiltersAndSort App.filtered]. rewrite H3.
    cbn [fst snd]. unfold sortRows. cbn [Z.ltb Z.compare orb].
    reflexivity.
Qed.

Lemma header_click_cycle_witness :
  App.filtered
    (@App.activate asciiHost 0 (@App.activate asciiHost 0 (@App.activate asciiHost 0
       {| App.headers := [lit "n"]; App.data := asRows [[lit "2"]; [lit "1"]];
          App.colTypes := {[ 0 := TNumber ]}; App.filtered := [];
          App.sortCol := -1; App.sortDir := NoSort; App.globalSearch := [];
          App.colFilters := [Some []]; App.page := 1; App.pageSize := 50;
          App.fileName := [] |})))
  = @filterRows asciiHost (asRows [[lit "2"]; [lit "1"]]) (Some [lit "n"]) (Some [])
                (Some [Some []]).
Proof.
  refine (proj2 (proj2 (proj2 (proj2
    (@header_click_cycle asciiHost 0
       {| App.headers := [lit "n"]; App.data := asRows [[lit "2"]; [lit "1"]];
          App.colTypes := {[ 0 := TNumber ]}; App.filtered := [];
          App.sortCol := -1; App.sortDir := NoSort; App.globalSearch := [];
          App.colFilters := [Some []]; App.page := 1; App.pageSize := 50;
          App.fileName := [] |} _))))).
  simpl. lia.
Defined.

Lemma replicate_empty_filters (n : nat) :
  Forall (fun f : cell => cellStr f = []) (replicate n (Some [])).
Proof. induction n; cbn; constructor; [reflexivity | assumption]. Qed.

(** What [onload] leaves when it shows a table. *)
Lemma onload_loaded `{Host} (text : str) (st st' : App.State) :
  App.onload text st = Some (App.Loaded st') ->
  exists first rest,
    (exists r, parseCSV text = Some r /\ rows r = first :: rest) /\
    first <> [] /\
    st' = App.applyFiltersAndSort
            {| App.headers := imap headerName first;
               App.data := asRows rest;
               App.colTypes := detectColTypes (imap headerName first) (asRows rest);
               App.filtered := App.filtered st;
               App.sortCol := -1;
               App.sortDir := NoSort;
               App.globalSearch := [];
               App.colFilters := replicate (length (imap headerName first)) (Some []);
               App.page := 1;
               App.pageSize := App.pageSize st;
               App.fileName := App.fileName st |}.
Proof.
  unfold App.onload. destruct (parseCSV text) as [r|] eqn:Hparse; [|discriminate].
  destruct (rows r) as [|first rest] eqn:Hrows; cbn [buildData]; [discriminate|].
  destruct (Nat.eqb_spec (length (imap headerName first)) 0) as [?|Hlen]; [discriminate|].
  intros Hst. injection Hst as <-. exists first, rest.
  split; [exists r; now split|]. split; [|reflexivity].
  intros ->. now apply Hlen.
Qed.

(** X22.  [reader.onload] returns on every text.  It shows the upload
    error exactly when the parser finds no row; otherwise the first row
    names the columns (one header per field), the other rows are the data,
    all of them are in the view in the order of the file, on page 1,
    unsorted, with an empty search and one empty filter per column; the
    page size and the file name are kept. *)
Theorem onload_outcome `{Host} (text : str) (st : App.State) :
  toLowerCase [] = [] ->
  exists r, parseCSV text = Some r /\
    match rows r with
    | [] => App.onload text st = Some App.Rejected
    | first :: rest =>
        exists st', App.onload text st = Some (App.Loaded st') /\
          App.headers st' = headers (buildData (rows r)) /\
          length (App.headers st') = length first /\
          App.headers st' <> [] /\
          App.data st' = asRows rest /\
          App.filtered st' = asRows rest /\
          App.page st' = 1 /\
          App.sortCol st' = -1 /\ App.sortDir st' = NoSort /\
          App.globalSearch st' = [] /\
          App.colFilters st' = replicate (length first) (Some []) /\
          App.pageSize st' = App.pageSize st /\
          App.fileName st' = App.fileName st
    end.
Proof.
  intros Hlow. destruct (parseCSV_total text) as [rs Hparse]. eexists.
  split; [exact Hparse|].
  pose proof (parseCSV_kept text _ Hparse) as Hkept.
  unfold App.onload. rewrite Hparse. cbn [rows] in *.
  destruct rs as [|first rest]; cbn [buildData]; [reflexivity|].
  inversion Hkept as [|? ? [Hfirst _] _]; subst.
  assert (Hlen : length (imap headerName first) = length first) by apply length_imap.
  destruct (Nat.eqb_spec (length (imap headerName first)) 0) as [Hz|Hnz].
  { destruct first; [contradiction | rewrite Hlen in Hz; discriminate]. }
  eexists. split; [reflexivity|].
  cbn [App.applyFiltersAndSort App.headers App.data App.filtered App.page App.sortCol
       App.sortDir App.globalSearch App.colFilters App.pageSize App.fileName headers].
  repeat split; try assumption; try (now rewrite Hlen).
  - intros Hnil. rewrite Hnil in Hnz. now apply Hnz.
  - unfold sortRows. cbn [Z.ltb Z.compare orb].
    apply filterRows_unfiltered; [exact Hlow | reflexivity |].
    apply replicate_empty_filters.
Qed.

Lemma onload_outcome_witness :
  exists r, parseCSV (lit "n,,n" ++ [LF] ++ lit "2,b" ++ [LF; LF] ++ lit "1") = Some r /\
    match rows r with
    | [] => @App.onload asciiHost (lit "n,,n" ++ [LF] ++ lit "2,b" ++ [LF; LF] ++ lit "1")
                        App.initial = Some App.Rejected
    | first :: rest =>
        exists st', @App.onload asciiHost
                      (lit "n,,n" ++ [LF] ++ lit "2,b" ++ [LF; LF] ++ lit "1") App.initial
                    = Some (App.Loaded st') /\
          App.headers st' = headers (buildData (rows r)) /\
          length (App.headers st') = length first /\
          App.headers st' <> [] /\
          App.data st' = asRows rest /\
          App.filtered st' = asRows rest /\
          App.page st' = 1 /\
          App.sortCol st' = -1 /\ App.sortDir st' = NoSort /\
          App.globalSearch st' = [] /\
          App.colFilters st' = replicate (length first) (Some []) /\
          App.pageSize st' = App.pageSize App.initial /\
          App.fileName st' = App.fileName App.initial
    end.
Proof. apply (@onload_outcome asciiHost). reflexivity. Defined.

(** ** The application: what is rendered *)


(** X23.  On an existing page and with a positive page size, the range
    [renderRowInfo] shows is the range of the rows [renderBody] shows: it
    starts after the rows of the pages before, and the rows of the page
    are the rows of the view from its first to its last number. *)
Theorem rowRange_rows (st : App.State) :
  0 < App.pageSize st -> App.filtered st <> [] ->
  1 <= App.page st <= App.totalPages st ->
  exists start stop,
    App.rowRange st = Some (start, stop) /\
    start = (App.page st - 1) * App.pageSize st + 1 /\
    start <= stop <= Z.of_nat (length (App.filtered st)) /\
    App.getPageRows st = range (App.filtered st) (start - 1) stop /\
    Z.of_nat (length (App.getPageRows st)) = stop - start + 1.
Proof.
  intros Hps Hrows Hpage. unfold App.totalPages in Hpage.
  destruct (calcTotalPages_bounds (Z.of_nat (length (App.filtered st))) (App.pageSize st)
              Hps ltac:(lia)) as (H1 & H2 & H3).
  assert (Hlen : 0 < Z.of_nat (length (App.filtered st)))
    by (destruct (App.filtered st); [contradiction | simpl; lia]).
  unfold App.rowRange, App.getPageRows.
  destruct (Z.eqb_spec (App.pageSize st) 0) as [?|_]; [lia|].
  destruct (Z.eqb_spec (Z.of_nat (length (App.filtered st))) 0) as [?|_]; [lia|].
  cbn [orb]. eexists _, _. split; [reflexivity|]. split; [reflexivity|].
  assert (Hrange : getPageSlice (App.filtered st) (App.page st) (App.pageSize st)
                   = range (App.filtered st) ((App.page st - 1) * App.pageSize st + 1 - 1)
                       (Z.min (App.page st * App.pageSize st)
                              (Z.of_nat (length (App.filtered st))))).
  { rewrite getPageSlice_range by lia. unfold range.
    replace ((App.page st - 1) * App.pageSize st + 1 - 1)
      with ((App.page st - 1) * App.pageSize st) by lia.
    rewrite <- (firstn_clip _ (Z.to_nat (App.page st * App.pageSize st - _))).
    rewrite <- (firstn_clip _ (Z.to_nat (Z.min _ _ - _))).
    f_equal. rewrite length_skipn. nia. }
  repeat split.
  - nia.
  - lia.
  - exact Hrange.
  - rewrite Hrange. unfold range. rewrite length_firstn, length_skipn. nia.
Qed.

Lemma rowRange_rows_witness :
  exists start stop,
    App.rowRange
      {| App.headers := [lit "n"];
         App.data := asRows [[lit "a"]; [lit "b"]; [lit "c"]];
         App.colTypes := ∅;
         App.filtered := asRows [[lit "a"]; [lit "b"]; [lit "c"]];
         App.sortCol := -1; App.sortDir := NoSort; App.globalSearch := [];
         App.colFilters := [Some []]; App.page := 2; App.pageSize := 2;
         App.fileName := [] |} = Some (start, stop) /\
    start = (2 - 1) * 2 + 1 /\
    start <= stop <= 3 /\
    getPageSlice (asRows [[lit "a"]; [lit "b"]; [lit "c"]]) 2 2
    = range (asRows [[lit "a"]; [lit "b"]; [lit "c"]]) (start - 1) stop /\
    Z.of_nat (length (getPageSlice (asRows [[lit "a"]; [lit "b"]; [lit "c"]]) 2 2))
    = stop - start + 1.
Proof.
  apply (rowRange_rows
    {| App.headers := [lit "n"];
       App.data := asRows [[lit "a"]; [lit "b"]; [lit "c"]];
       App.colTypes := ∅;
       App.filtered := asRows [[lit "a"]; [lit "b"]; [lit "c"]];
       App.sortCol := -1; App.sortDir := NoSort; App.globalSearch := [];
       App.colFilters := [Some []]; App.page := 2; App.pageSize := 2;
       App.fileName := [] |});
    [simpl; lia | discriminate | vm_compute; split; discriminate].
Defined.






(** ** The application: what holds on every screen *)

Lemma sortRows_nil `{Host} (sortCol : Z) (sortDir : SortDir)
      (colTypes : option (gmap Z ColType)) :
  sortRows [] sortCol sortDir colTypes = [].
Proof. unfold sortRows. destruct (_ || _); reflexivity. Qed.

Lemma exampleScreen_reachable : @App.reachable asciiHost exampleScreen.
Proof.
  unfold exampleScreen.
  apply App.reach_event;
    [apply App.reach_event; [|exact I] | ].
  - apply (App.reach_load exampleText App.start); [apply App.reach_start|].
    vm_compute. reflexivity.
  - vm_compute. eexists. split; [right; right; left; reflexivity | reflexivity].
Defined.

(** X25.  On every screen the application can reach, the view is the data
    filtered by the search and the column filters of the state and sorted
    by its sort column and direction; so the view holds rows of the data
    only, each at most as often as the data. *)
Theorem view_in_sync `{Host} (s : App.Screen) :
  App.reachable s ->
  App.inSync (App.st s) /\
  exists kept, sublist kept (App.data (App.st s)) /\
               Permutation (App.filtered (App.st s)) kept.
Proof.
  intros Hs.
  assert (Hsync : App.inSync (App.st s)).
  { induction Hs as [|e s Hs IH He|text s s' Hs IH Hload].
    - reflexivity.
    - destruct e; cbn [App.handle App.st App.rerender]; try reflexivity; try exact IH.
      unfold App.inSync. cbn. unfold filterRows. cbn. now rewrite sortRows_nil.
    - unfold App.load in Hload.
      destruct (App.onload text (App.st s)) as [[|st']|] eqn:Hon; try discriminate;
        injection Hload as <-; [exact IH|].
      destruct (onload_loaded _ _ _ Hon) as (first & rest & _ & _ & ->). reflexivity. }
  split; [exact Hsync|].
  exists (filterRows (App.data (App.st s)) (Some (App.headers (App.st s)))
                     (Some (App.globalSearch (App.st s)))
                     (Some (App.colFilters (App.st s)))).
  split; [apply filter_sublist|].
  rewrite Hsync. unfold sortRows. destruct (_ || _); [reflexivity | apply sort_permutation].
Qed.

Lemma view_in_sync_witness :
  @App.inSync asciiHost (App.st exampleScreen) /\
  exists kept, sublist kept (App.data (App.st exampleScreen)) /\
               Permutation (App.filtered (App.st exampleScreen)) kept.
Proof. apply (@view_in_sync asciiHost). apply exampleScreen_reachable. Defined.



Lemma arraySet_within {A} (arr : list (option A)) (c : nat) (v : A) :
  (c < length arr)%nat ->
  length (arraySet arr c v) = length arr /\
  (Forall (fun f => f <> None) arr -> Forall (fun f => f <> None) (arraySet arr c v)).
Proof.
  intros Hc. unfold arraySet. destruct (Nat.ltb_spec c (length arr)) as [_|?]; [|lia].
  split; [apply length_insert|].
  intros Hall. apply Forall_insert; [exact Hall | discriminate].
Qed.

(** X27.  On every screen the application can reach, there is a sort
    column exactly when there is a sort direction; and while a table is
    loaded the sort column is one of its columns, every column has its
    header cell and its filter input, and the state holds one filter
    string for each column and no hole. *)
Theorem sort_and_filters_coherent `{Host} (s : App.Screen) :
  App.reachable s ->
  (App.sortCol (App.st s) = -1 <-> App.sortDir (App.st s) = NoSort) /\
  -1 <= App.sortCol (App.st s) /\
  (App.headers (App.st s) <> [] ->
   App.sortCol (App.st s) < Z.of_nat (length (App.headers (App.st s))) /\
   App.headerCells s = length (App.headers (App.st s)) /\
   App.filterInputs s = length (App.headers (App.st s)) /\
   length (App.colFilters (App.st s)) = length (App.headers (App.st s)) /\
   Forall (fun f => f <> None) (App.colFilters (App.st s))).
Proof.
  induction 1 as [|e s Hs IH He|text s s' Hs IH Hload].
  - cbn. repeat split; try lia. contradiction.
  - destruct IH as (Hiff & Hlow & Hloaded).
    destruct e; cbn [App.handle App.st App.rerender App.headerCells App.filterInputs].
    + (* a header *)
      cbn [App.activate App.applyFiltersAndSort App.sortCol App.sortDir App.headers
           App.colFilters].
      cbn [App.enabled] in He.
      assert (Hnext : (fst (App.nextSort c (App.st s)) = Z.of_nat c /\
                       snd (App.nextSort c (App.st s)) <> NoSort) \/
                      (fst (App.nextSort c (App.st s)) = -1 /\
                       snd (App.nextSort c (App.st s)) = NoSort)).
      { unfold App.nextSort.
        destruct (negb _); [left; split; [reflexivity | discriminate]|].
        destruct (App.sortDir (App.st s));
          [left; split; [reflexivity | discriminate] | right .. ]; now split. }
      split; [|split].
      * destruct Hnext as [[-> Hd] | [-> ->]]; [|tauto]. split; [lia | contradiction].
      * destruct Hnext as [[-> _] | [-> _]]; lia.
      * intros Hh. destruct (Hloaded Hh) as (Hcol & Hcells & Hinputs & Hlen & Hall).
        repeat split; try assumption.
        destruct Hnext as [[-> _] | [-> _]]; lia.
    + (* a filter input *)
      cbn [App.onFilterInput App.applyFiltersAndSort App.sortCol App.sortDir App.headers
           App.colFilters].
      cbn [App.enabled] in He.
      split; [exact Hiff|]. split; [exact Hlow|].
      intros Hh. destruct (Hloaded Hh) as (Hcol & Hcells & Hinputs & Hlen & Hall).
      assert (Hc : (c < length (App.colFilters (App.st s)))%nat)
        by (rewrite Hlen, <- Hinputs; exact He).
      destruct (arraySet_within (App.colFilters (App.st s)) c value Hc) as [Hlen' Hall'].
      repeat split; try assumption;
        [exact (eq_trans Hlen' Hlen) | exact (Hall' Hall)].
    + exact (conj Hiff (conj Hlow Hloaded)).
    + exact (conj Hiff (conj Hlow Hloaded)).
    + exact (conj Hiff (conj Hlow Hloaded)).
    + exact (conj Hiff (conj Hlow Hloaded)).
    + cbn. repeat split; try tauto; try lia; contradiction.
    + exact (conj Hiff (conj Hlow Hloaded)).
  - unfold App.load in Hload.
    destruct (App.onload text (App.st s)) as [[|st']|] eqn:Hon; try discriminate;
      injection Hload as <-; [exact IH|].
    destruct (onload_loaded _ _ _ Hon) as (first & rest & _ & _ & ->).
    cbn [App.renderAll App.st App.headerCells App.filterInputs App.applyFiltersAndSort
         App.sortCol App.sortDir App.headers App.colFilters].
    repeat split; try lia.
    + apply length_replicate.
    + apply Forall_replicate. discriminate.
Qed.

Lemma sort_and_filters_coherent_witness :
  (App.sortCol (App.st exampleScreen) = -1 <-> App.sortDir (App.st exampleScreen) = NoSort) /\
  -1 <= App.sortCol (App.st exampleScreen) /\
  (App.headers (App.st exampleScreen) <> [] ->
   App.sortCol (App.st exampleScreen) < Z.of_nat (length (App.headers (App.st exampleScreen))) /\
   App.headerCells exampleScreen = length (App.headers (App.st exampleScreen)) /\
   App.filterInputs exampleScreen = length (App.headers (App.st exampleScreen)) /\
   length (App.colFilters (App.st exampleScreen)) = length (App.headers (App.st exampleScreen)) /\
   Forall (fun f => f <> None) (App.colFilters (App.st exampleScreen))).
Proof. apply (@sort_and_filters_coherent asciiHost). apply exampleScreen_reachable. Defined.
